(** * localLLM-api: the model cache, the request handlers and the chat stream

    A shallow embedding of the single-file server (the model cache
    [loadedModels], [loadModel], [unloadUnusedModels] and the handlers of
    /v1/embeddings, /v1/rerank, /v1/models/unload and /v1/chat/completions)
    together with the properties its specification states about them.

    The inference engine (node-llama-cpp), Node's [path.join] and the clock
    behind [Date.now()] are external to the program.  They are gathered in
    the record [Env]; every definition below is a function of an arbitrary
    [Env], and nothing is assumed about it unless a statement says so.

    The functions of the program are computations over the state of the
    process ([World]): they read and write the map, read the clock, call the
    engine and may throw.  A handler is the computation of one request served
    from start to finish.  The server runs on one thread and a call gives way
    to other calls only at an [await]; for [loadModel], whose behaviour under
    overlapping calls is at stake, [resume] and [run] cut the call at its
    [await]s and interleave several calls. *)

From Stdlib Require Import ZArith QArith String Ascii List.
From stdpp Require Import gmap strings list fin_maps pretty sorting.

Local Open Scope Z_scope.
Local Open Scope string_scope.
Local Open Scope list_scope.

(** ** JavaScript strings *)

Module Js.

(** The line feed written [\n] in the source. *)
Definition nl : string := String (ascii_of_nat 10) EmptyString.

(** [s.endsWith(suffix)] *)
Definition endsWith (s suffix : string) : bool :=
  let n := String.length s in
  let k := String.length suffix in
  if (k <=? n)%nat then String.eqb (substring (n - k) k s) suffix else false.

(** [s.includes(sub)] *)
Fixpoint includes (s sub : string) : bool :=
  if String.prefix sub s then true
  else match s with
       | EmptyString => false
       | String _ rest => includes rest sub
       end.

(** The strings of a list put end to end. *)
Definition concat (l : list string) : string :=
  fold_right String.append "" l.

(** Truthiness of a string: only the empty string is falsy. *)
Definition truthy (s : string) : bool :=
  match s with EmptyString => false | _ => true end.

(** Truthiness of a field of a parsed body that is either absent or a
    string. *)
Definition truthy_field (f : option string) : bool :=
  match f with Some s => truthy s | None => false end.

End Js.

(** ** Values thrown and caught *)

(** What a [catch] clause of the handlers inspects of the value it caught:
    whether it is an [Error], its [code] and [path] properties when it has
    them, and its [message]. *)
Record JsError := mkJsError {
  err_instanceofError : bool;
  err_code : option string;
  err_path : option string;
  err_message : string;
}.

(** [error instanceof Error && "code" in error && error.code === "ENOENT"] *)
Definition is_ENOENT (error : JsError) : bool :=
  err_instanceofError error &&
  match err_code error with
  | Some code => String.eqb code "ENOENT"
  | None => false
  end.

(** A property interpolated into a template literal; a missing one prints
    as [undefined]. *)
Definition interpolate (v : option string) : string :=
  match v with Some s => s | None => "undefined" end.

(** ** The data of the cache *)

Inductive ModelType := embedding | reranker | chat.

Global Instance ModelType_eq_dec : EqDecision ModelType.
Proof. solve_decision. Defined.

(** A model object handed out by the engine.  [handle] tells two objects
    apart: it is the position of the load in the engine's trace. *)
Record LlamaModel := mkModel {
  handle : nat;
  modelPath_of : string;
}.

(** [interface ModelContext]; the two category contexts remember the model
    they were created from. *)
Record ModelContext := mkContext {
  model : LlamaModel;
  embeddingContext : option LlamaModel;
  rankingContext : option LlamaModel;
  lastUsed : Z;
}.

Definition set_lastUsed (t : Z) (c : ModelContext) : ModelContext :=
  {| model := model c; embeddingContext := embeddingContext c;
     rankingContext := rankingContext c; lastUsed := t |}.

Definition set_embeddingContext (e : LlamaModel) (c : ModelContext) : ModelContext :=
  {| model := model c; embeddingContext := Some e;
     rankingContext := rankingContext c; lastUsed := lastUsed c |}.

Definition set_rankingContext (r : LlamaModel) (c : ModelContext) : ModelContext :=
  {| model := model c; embeddingContext := embeddingContext c;
     rankingContext := Some r; lastUsed := lastUsed c |}.

(** A [LlamaChatSession]: the options it was built with, the context
    sequence it owns and the turns it has seen. *)
Record ChatSession := mkSession {
  session_model : LlamaModel;
  session_systemPrompt : string;
  session_sequence : nat;
  session_template : string;
  session_history : list (string * string);
}.

(** [interface RankedResult] *)
Record RankedResult := mkRanked {
  document : string;
  score : Q;
}.

(** Options of [session.prompt]. *)
Record PromptOptions := mkOptions {
  temperature : Q;
  maxTokens : option Z;
}.

(** ** The environment: engine, path library and clock *)

Record Env := mkEnv {
  (** Node's [path.join], on two segments *)
  path_join : string -> string -> string;
  (** [path.resolve(__dirname, "..")] *)
  projectRoot : string;
  (** the successive values of [Date.now()], in the order they are read *)
  clock : nat -> Z;
  (** [llama.loadModel({modelPath})]: [None] when it resolves, the value it
      rejects with otherwise *)
  loadModel_outcome : string -> option JsError;
  (** [model.createEmbeddingContext()], [model.createRankingContext()] and
      [model.createContext()], by the path of the model *)
  createEmbeddingContext_outcome : string -> option JsError;
  createRankingContext_outcome : string -> option JsError;
  createContext_outcome : string -> option JsError;
  (** [embeddingContext.getEmbeddingFor(text)]: the vector, or the value
      thrown *)
  getEmbeddingFor : string -> string -> JsError + list Q;
  (** [rankingContext.rankAndSort(query, documents)] *)
  rankAndSort : string -> string -> list string -> JsError + list RankedResult;
  (** [session.prompt(text, options)] on a model, with the session's system
      prompt and the turns it has already seen: the text chunks the engine
      produces, in order, and the value it throws after them if it fails.
      The response it returns is the concatenation of the chunks. *)
  generate : string -> string -> list (string * string) -> string ->
             PromptOptions -> list string * option JsError;
}.

(** What the program asked of the engine, oldest first. *)
Inductive EngineEvent :=
  | EvLoad (modelPath : string)
  | EvCreateEmbeddingContext (m : LlamaModel)
  | EvCreateRankingContext (m : LlamaModel)
  | EvCreateContext (m : LlamaModel)
  | EvDispose (m : LlamaModel)
  | EvEmbed (m : LlamaModel) (text : string)
  | EvRank (m : LlamaModel) (query : string) (documents : list string)
  | EvPrompt (m : LlamaModel) (sequence : nat) (systemPrompt : string)
             (text : string) (options : PromptOptions).

(** The state of the process: the module-level [loadedModels] map, the
    number of clock readings made, and the engine trace. *)
Record World := mkWorld {
  loadedModels : gmap string ModelContext;
  reads : nat;
  trace : list EngineEvent;
}.

Definition initial : World :=
  {| loadedModels := ∅; reads := 0%nat; trace := [] |}.

Definition is_load (ev : EngineEvent) : bool :=
  match ev with EvLoad _ => true | _ => false end.

Definition is_load_of (p : string) (ev : EngineEvent) : bool :=
  match ev with EvLoad q => String.eqb q p | _ => false end.

Definition is_createContext (ev : EngineEvent) : bool :=
  match ev with EvCreateContext _ => true | _ => false end.

(** Number of engine loads of path [p] so far. *)
Definition loads_of (p : string) (w : World) : nat :=
  length (List.filter (is_load_of p) (trace w)).

(** Number of generation contexts created so far. *)
Definition contexts_created (w : World) : nat :=
  length (List.filter is_createContext (trace w)).

(** ** Requests and responses *)

(** The [input] field of an embeddings request. *)
Inductive EmbeddingsInput :=
  | InputString (s : string)
  | InputArray (l : list string).

Record EmbeddingsRequest := mkEmbeddingsRequest {
  emb_model : option string;
  emb_input : option EmbeddingsInput;
}.

(** [documents] is [None] when the field is not an array. *)
Record RerankRequest := mkRerankRequest {
  rr_model : option string;
  rr_query : option string;
  rr_documents : option (list string);
}.

Record LoadRequest := mkLoadRequest {
  ld_model : option string;
  ld_type : option string;
}.

Record UnloadRequest := mkUnloadRequest {
  ul_model : option string;
}.

Record Message := mkMessage {
  role : string;
  content : string;
}.

(** [messages] is [None] when the field is not an array; the other optional
    fields are [None] when absent. *)
Record ChatRequest := mkChatRequest {
  chat_model : option string;
  chat_messages : option (list Message);
  chat_temperature : option Q;
  chat_max_tokens : option Z;
  chat_stream : option bool;
}.

(** An entry of [data] in an embeddings response. *)
Record EmbeddingItem := mkEmbeddingItem {
  ei_embedding : list Q;
  ei_index : nat;
}.

(** An entry of [data] in a rerank response. *)
Record RerankItem := mkRerankItem {
  ri_document : string;
  ri_relevance_score : Q;
  ri_index : nat;
}.

(** A [chat.completion.chunk] object. *)
Record Chunk := mkChunk {
  chunk_id : string;
  chunk_created : Z;
  chunk_model : string;
  delta_content : string;
  chunk_finish_reason : option string;
}.

(** What is enqueued on the response stream: [data: <chunk>] frames and the
    final [data: [DONE]] frame. *)
Inductive Frame :=
  | FrameChunk (c : Chunk)
  | FrameDone.

(** How the stream ends: [controller.close()] or [controller.error(e)]. *)
Inductive StreamEnd :=
  | Closed
  | Errored (e : JsError).

Inductive Body :=
  (** [{error: {message, type, param, code}}] *)
  | ErrorBody (message type : string) (param code : option string)
  (** [{error: message}] *)
  | FlatErrorBody (message : string)
  (** [{message}] *)
  | MessageBody (message : string)
  (** [{object: "list", data, model, usage}] of /v1/embeddings *)
  | EmbeddingsBody (data : list EmbeddingItem) (model : string)
  (** [{object: "list", model, data, usage}] of /v1/rerank *)
  | RerankBody (model : string) (data : list RerankItem)
  (** [{id, object: "chat.completion", created, model, choices, usage}] with
      the single choice's [message.content] *)
  | ChatCompletionBody (id : string) (created : Z) (model : string)
                       (message_content : string).

Inductive Response :=
  | Json (body : Body) (status : Z)
  | EventStream (frames : list Frame) (ending : StreamEnd).

(** ** Calls in flight *)

(** A call of [loadModel] between two of its [await]s: not yet started,
    suspended on [llama.loadModel], suspended on the creation of the
    category context, or finished. *)
Inductive LoadTask :=
  | Called (modelName : string) (type : ModelType)
  | AwaitingModel (modelPath : string) (type : ModelType)
                  (settled : JsError + LlamaModel)
  | AwaitingContext (modelPath : string) (type : ModelType)
                    (context : ModelContext) (settled : JsError + LlamaModel)
  | Returned (context : ModelContext)
  | Threw (error : JsError).

(** ** Computations: state passing with exceptions *)

Definition M (A : Type) : Type := World -> (JsError + A) * World.

Definition ret {A} (a : A) : M A := fun w => (inr a, w).

Definition throw {A} (e : JsError) : M A := fun w => (inl e, w).

Definition bind {A B} (m : M A) (k : A -> M B) : M B :=
  fun w =>
    match m w with
    | (inr a, w') => k a w'
    | (inl e, w') => (inl e, w')
    end.

(** [try { body } catch (error) { handler }] *)
Definition try_catch {A} (body : M A) (handler : JsError -> M A) : M A :=
  fun w =>
    match body w with
    | (inr a, w') => (inr a, w')
    | (inl e, w') => handler e w'
    end.

Declare Scope js_scope.
Delimit Scope js_scope with js.
Notation "x <- m ;; k" := (bind m (fun x => k))
  (at level 62, m at next level, right associativity) : js_scope.
Local Open Scope js_scope.

(** [for (const x of xs) { body }], threading the loop's local state. *)
Fixpoint for_of {A S} (xs : list A) (body : A -> S -> M S) (s : S) : M S :=
  match xs with
  | [] => ret s
  | x :: rest => s' <- body x s ;; for_of rest body s'
  end.

Section Program.

Variable E : Env.

(** *** Primitive effects *)

Definition Date_now : M Z := fun w =>
  (inr (clock E (reads w)),
   {| loadedModels := loadedModels w; reads := S (reads w); trace := trace w |}).

Definition emit (ev : EngineEvent) : M unit := fun w =>
  (inr tt,
   {| loadedModels := loadedModels w; reads := reads w;
      trace := trace w ++ [ev] |}).

(** [loadedModels.get(path)], [.has], [.set], [.delete], [.entries()] *)
Definition cache_get (p : string) : M (option ModelContext) := fun w =>
  (inr (loadedModels w !! p), w).

Definition cache_has (p : string) : M bool := fun w =>
  (inr (bool_decide (is_Some (loadedModels w !! p))), w).

Definition cache_set (p : string) (c : ModelContext) : M unit := fun w =>
  (inr tt,
   {| loadedModels := <[p := c]> (loadedModels w); reads := reads w;
      trace := trace w |}).

Definition cache_delete (p : string) : M unit := fun w =>
  (inr tt,
   {| loadedModels := delete p (loadedModels w); reads := reads w;
      trace := trace w |}).

Definition cache_entries : M (list (string * ModelContext)) := fun w =>
  (inr (map_to_list (loadedModels w)), w).

Definition settle {A} (outcome : option JsError) (a : A) : M A :=
  match outcome with
  | Some e => throw e
  | None => ret a
  end.

(** [await llama.loadModel({modelPath})] *)
Definition llama_loadModel (modelPath : string) : M LlamaModel := fun w =>
  (_ <- emit (EvLoad modelPath) ;;
   settle (loadModel_outcome E modelPath)
          {| handle := length (trace w); modelPath_of := modelPath |}) w.

Definition createEmbeddingContext (m : LlamaModel) : M LlamaModel :=
  _ <- emit (EvCreateEmbeddingContext m) ;;
  settle (createEmbeddingContext_outcome E (modelPath_of m)) m.

Definition createRankingContext (m : LlamaModel) : M LlamaModel :=
  _ <- emit (EvCreateRankingContext m) ;;
  settle (createRankingContext_outcome E (modelPath_of m)) m.

(** [model.dispose()] *)
Definition dispose (m : LlamaModel) : M unit := emit (EvDispose m).

(** *** Model directories *)

Definition MODELS_BASE_DIR : string := path_join E (projectRoot E) "models".

Definition MODEL_DIRS (type : ModelType) : string :=
  match type with
  | embedding => path_join E MODELS_BASE_DIR "embedding"
  | reranker => path_join E MODELS_BASE_DIR "reranker"
  | chat => path_join E MODELS_BASE_DIR "chat"
  end.

(** [Object.values(MODEL_DIRS)]: the keys in the order the literal lists
    them. *)
Definition MODEL_DIRS_values : list string :=
  [MODEL_DIRS embedding; MODEL_DIRS reranker; MODEL_DIRS chat].

(** *** loadModel *)

Definition modelFileName (modelName : string) : string :=
  if Js.endsWith modelName ".gguf" then modelName else modelName +:+ ".gguf".

Definition modelPath (modelName : string) (type : ModelType) : string :=
  path_join E (MODEL_DIRS type) (modelFileName modelName).

Definition loadModel (modelName : string) (type : ModelType) : M ModelContext :=
  let modelPath := modelPath modelName type in
  existingModel <- cache_get modelPath ;;
  match existingModel with
  | Some existingModel =>
      now <- Date_now ;;
      (* the assignment to [lastUsed] mutates the object the map holds *)
      let existingModel := set_lastUsed now existingModel in
      _ <- cache_set modelPath existingModel ;;
      ret existingModel
  | None =>
      model <- llama_loadModel modelPath ;;
      now <- Date_now ;;
      let context :=
        {| model := model; embeddingContext := None;
           rankingContext := None; lastUsed := now |} in
      context <-
        match type with
        | embedding =>
            ec <- createEmbeddingContext model ;;
            ret (set_embeddingContext ec context)
        | reranker =>
            rc <- createRankingContext model ;;
            ret (set_rankingContext rc context)
        | chat => ret context
        end ;;
      _ <- cache_set modelPath context ;;
      ret context
  end.

(** *** loadModel, one synchronous stretch at a time

    The server runs its handlers on one thread, so between two [await]s a
    call runs without interruption, and at an [await] any other call may
    run.  [resume] runs a call of [loadModel] up to its next [await]. *)

Definition finish (r : (JsError + ModelContext) * World) : LoadTask * World :=
  match r with
  | (inr context, w') => (Returned context, w')
  | (inl error, w') => (Threw error, w')
  end.

Definition resume (t : LoadTask) (w : World) : LoadTask * World :=
  match t with
  | Called modelName type =>
      let modelPath := modelPath modelName type in
      match loadedModels w !! modelPath with
      | Some existingModel =>
          finish ((now <- Date_now ;;
                   let existingModel := set_lastUsed now existingModel in
                   _ <- cache_set modelPath existingModel ;;
                   ret existingModel) w)
      | None =>
          let r := llama_loadModel modelPath w in
          (AwaitingModel modelPath type (fst r), snd r)
      end
  | AwaitingModel modelPath type (inl error) => (Threw error, w)
  | AwaitingModel modelPath type (inr model) =>
      match Date_now w with
      | (inr now, w1) =>
          let context :=
            {| model := model; embeddingContext := None;
               rankingContext := None; lastUsed := now |} in
          match type with
          | embedding =>
              let r := createEmbeddingContext model w1 in
              (AwaitingContext modelPath type context (fst r), snd r)
          | reranker =>
              let r := createRankingContext model w1 in
              (AwaitingContext modelPath type context (fst r), snd r)
          | chat =>
              finish ((_ <- cache_set modelPath context ;; ret context) w1)
          end
      | (inl error, w1) => (Threw error, w1)
      end
  | AwaitingContext modelPath type context (inl error) => (Threw error, w)
  | AwaitingContext modelPath type context (inr c) =>
      let context :=
        match type with
        | embedding => set_embeddingContext c context
        | reranker => set_rankingContext c context
        | chat => context
        end in
      finish ((_ <- cache_set modelPath context ;; ret context) w)
  | Returned context => (Returned context, w)
  | Threw error => (Threw error, w)
  end.

(** The calls in flight, and a schedule: which call runs its next stretch,
    in order. *)
Fixpoint run (schedule : list nat) (tasks : list LoadTask) (w : World)
  : list LoadTask * World :=
  match schedule with
  | [] => (tasks, w)
  | i :: rest =>
      match tasks !! i with
      | Some t =>
          let r := resume t w in
          run rest (<[i := fst r]> tasks) (snd r)
      | None => run rest tasks w
      end
  end.

(** A call run from start to finish with nothing in between. *)
Definition uninterrupted (modelName : string) (type : ModelType) (w : World)
  : LoadTask * World :=
  let r1 := resume (Called modelName type) w in
  let r2 := resume (fst r1) (snd r1) in
  resume (fst r2) (snd r2).

(** *** unloadUnusedModels *)

Definition unloadUnusedModels (maxAgeMs : option Z) : M unit :=
  let maxAgeMs := default (30 * 60 * 1000) maxAgeMs in
  now <- Date_now ;;
  entries <- cache_entries ;;
  for_of entries
    (fun '(path, context) (_ : unit) =>
       if now - lastUsed context >? maxAgeMs then
         _ <- dispose (model context) ;;
         cache_delete path
       else ret tt)
    tt.

(** *** Error responses *)

(** [error instanceof Error ? error.message : "Unknown error occurred"] *)
Definition message_of (error : JsError) : string :=
  if err_instanceofError error then err_message error
  else "Unknown error occurred".

Definition not_found_message (error : JsError) : string :=
  "Model '" +:+ interpolate (err_path error) +:+ "' not found in models directory".

(** The [catch] clause of /v1/embeddings, /v1/rerank and
    /v1/chat/completions (the three are the same but for the line they
    log). *)
Definition openai_catch (error : JsError) : M Response :=
  if is_ENOENT error then
    ret (Json (ErrorBody (not_found_message error) "invalid_request_error"
                         (Some "model") (Some "model_not_found")) 404)
  else
    ret (Json (ErrorBody (message_of error) "server_error" None None) 500).

(** The [catch] clause of /v1/models/unload. *)
Definition unload_catch (error : JsError) : M Response :=
  ret (Json (FlatErrorBody (message_of error)) 500).

Definition invalid_request (message param : string) : Response :=
  Json (ErrorBody message "invalid_request_error" (Some param) None) 400.

(** *** POST /v1/models/load *)

(** The category a [type] string names, if it is one of the three. *)
Definition type_of_string (type : string) : option ModelType :=
  if String.eqb type "embedding" then Some embedding
  else if String.eqb type "reranker" then Some reranker
  else if String.eqb type "chat" then Some chat
  else None.

(** The [catch] clause of /v1/models/load. *)
Definition load_catch (error : JsError) : M Response :=
  if is_ENOENT error then
    ret (Json (FlatErrorBody (not_found_message error)) 404)
  else
    ret (Json (FlatErrorBody (message_of error)) 500).

Definition handleLoad (req : LoadRequest) : M Response :=
  try_catch
    (if negb (Js.truthy_field (ld_model req))
        || negb (Js.truthy_field (ld_type req)) then
       ret (Json (FlatErrorBody
                    "Model name and type (embedding or reranker) are required")
                 400)
     else
       match type_of_string (default "" (ld_type req)) with
       | None =>
           ret (Json (FlatErrorBody
                        "Type must be either 'embedding', 'reranker', or 'chat'")
                     400)
       | Some type =>
           _ <- loadModel (default "" (ld_model req)) type ;;
           ret (Json (MessageBody "Model loaded successfully") 200)
       end)
    load_catch.

(** *** POST /v1/models/unload *)

(** The loop over [Object.values(MODEL_DIRS)] that stops at the first
    directory under which the name is cached. *)
Fixpoint findModelPath (dirs : list string) (model : string) : M (option string) :=
  match dirs with
  | [] => ret None
  | dir :: rest =>
      let testPath := path_join E dir (model +:+ ".gguf") in
      found <- cache_has testPath ;;
      if found then ret (Some testPath) else findModelPath rest model
  end.

Definition handleUnload (req : UnloadRequest) : M Response :=
  try_catch
    (if negb (Js.truthy_field (ul_model req)) then
       ret (Json (FlatErrorBody "Model name is required") 400)
     else
       let model_ := default "" (ul_model req) in
       modelPath <- findModelPath MODEL_DIRS_values model_ ;;
       if negb (Js.truthy_field modelPath) then
         ret (Json (FlatErrorBody "Model not found or not loaded") 404)
       else
         let modelPath := default "" modelPath in
         modelContext <- cache_get modelPath ;;
         _ <- match modelContext with
              | Some modelContext => dispose (model modelContext)
              | None => ret tt
              end ;;
         _ <- cache_delete modelPath ;;
         ret (Json (MessageBody "Model unloaded successfully") 200))
    unload_catch.

(** *** POST /v1/embeddings *)

(** [!input] *)
Definition truthy_input (input : option EmbeddingsInput) : bool :=
  match input with
  | Some (InputString s) => Js.truthy s
  | Some (InputArray _) => true
  | None => false
  end.

(** [Array.isArray(input) ? input : [input]] *)
Definition inputs_of (input : option EmbeddingsInput) : list string :=
  match input with
  | Some (InputArray l) => l
  | Some (InputString s) => [s]
  | None => []
  end.

Definition embed (ctx : LlamaModel) (text : string) : M (list Q) :=
  _ <- emit (EvEmbed ctx text) ;;
  match getEmbeddingFor E (modelPath_of ctx) text with
  | inl e => throw e
  | inr vector => ret vector
  end.

Definition handleEmbeddings (req : EmbeddingsRequest) : M Response :=
  try_catch
    (let input := emb_input req in
     if negb (Js.truthy_field (emb_model req)) || negb (truthy_input input) then
       ret (invalid_request "Missing required parameters: model, input"
              (if negb (Js.truthy_field (emb_model req)) then "model" else "input"))
     else
       let model_ := default "" (emb_model req) in
       modelContext <- loadModel model_ embedding ;;
       match embeddingContext modelContext with
       | None => ret (invalid_request "Model is not suitable for embeddings" "model")
       | Some embeddingContext =>
           let inputs := inputs_of input in
           embeddings <-
             for_of inputs
               (fun text embeddings =>
                  vector <- embed embeddingContext text ;;
                  ret (embeddings ++
                       [{| ei_embedding := vector;
                           ei_index := length embeddings |}])%list)
               [] ;;
           ret (Json (EmbeddingsBody
                        (map (fun e => {| ei_embedding := ei_embedding e;
                                          ei_index := ei_index e |})
                             embeddings)
                        model_) 200)
       end)
    openai_catch.

(** *** POST /v1/rerank *)

Definition rank (ctx : LlamaModel) (query : string) (documents : list string)
  : M (list RankedResult) :=
  _ <- emit (EvRank ctx query documents) ;;
  match rankAndSort E (modelPath_of ctx) query documents with
  | inl e => throw e
  | inr rankedResults => ret rankedResults
  end.

(** [Array.isArray(field)] for a field that is [None] unless it is an
    array. *)
Definition isArray {A} (field : option (list A)) : bool :=
  match field with Some _ => true | None => false end.

Definition handleRerank (req : RerankRequest) : M Response :=
  try_catch
    (if negb (Js.truthy_field (rr_model req))
        || negb (Js.truthy_field (rr_query req))
        || negb (isArray (rr_documents req)) then
       ret (invalid_request
              "Missing required parameters: model, query, documents (array)"
              (if negb (Js.truthy_field (rr_model req)) then "model"
               else if negb (Js.truthy_field (rr_query req)) then "query"
               else "documents"))
     else
       let model_ := default "" (rr_model req) in
       let query := default "" (rr_query req) in
       let documents := default [] (rr_documents req) in
       modelContext <- loadModel model_ reranker ;;
       match rankingContext modelContext with
       | None => ret (invalid_request "Model is not suitable for reranking" "model")
       | Some rankingContext =>
           rankedResults <- rank rankingContext query documents ;;
           ret (Json (RerankBody model_
                        (imap (fun index result =>
                                 {| ri_document := document result;
                                    ri_relevance_score := score result;
                                    ri_index := index |})
                              rankedResults)) 200)
       end)
    openai_catch.

(** *** POST /v1/chat/completions *)

(** The template of the [TemplateChatWrapper] every request builds. *)
Definition chat_template : string :=
  "{{systemPrompt}}" +:+ Js.nl +:+ "{{history}}Assistant: {{completion}}"
    +:+ Js.nl +:+ "Human: ".

(** [model.createContext()] and [context.getSequence()]; the sequence is
    named by its position in the engine trace. *)
Definition createContext (m : LlamaModel) : M nat := fun w =>
  (_ <- emit (EvCreateContext m) ;;
   settle (createContext_outcome E (modelPath_of m)) (length (trace w))) w.

(** [session.prompt(text, {temperature, maxTokens, onTextChunk})]: the
    callback runs on every chunk; the result is the response, or the value
    thrown, together with what the callback has made of its state. *)
Definition session_prompt {S} (session : ChatSession) (text : string)
    (options : PromptOptions) (onTextChunk : string -> S -> M S) (s : S)
  : M ((JsError + string) * S) :=
  _ <- emit (EvPrompt (session_model session) (session_sequence session)
                      (session_systemPrompt session) text options) ;;
  let produced :=
    generate E (modelPath_of (session_model session))
             (session_systemPrompt session) (session_history session)
             text options in
  s' <- for_of (fst produced) onTextChunk s ;;
  match snd produced with
  | Some e => ret (inl e, s')
  | None => ret (inr (Js.concat (fst produced)), s')
  end.

(** The loop over [messages] that keeps the content of the last message
    whose role is [system]. *)
Definition systemPrompt_of (messages : list Message) : string :=
  fold_left
    (fun systemPrompt msg =>
       if String.eqb (role msg) "system" then content msg else systemPrompt)
    messages "".

(** [messages[messages.length - 1].content] *)
Definition last_content (messages : list Message) : string :=
  match last messages with
  | Some msg => content msg
  | None => ""
  end.

(** "Create or get existing chat session": the lookup in [chatSessions]
    and, when it misses, the new context and session.  (The timer that
    later deletes the key from the same map is left out.) *)
Definition acquireSession (chatSessions : gmap string ChatSession)
    (sessionId : string) (modelContext : ModelContext) (systemPrompt : string)
  : M (ChatSession * gmap string ChatSession) :=
  match chatSessions !! sessionId with
  | Some session => ret (session, chatSessions)
  | None =>
      sequence <- createContext (model modelContext) ;;
      let session :=
        {| session_model := model modelContext;
           session_systemPrompt := systemPrompt;
           session_sequence := sequence;
           session_template := chat_template;
           session_history := [] |} in
      ret (session, <[sessionId := session]> chatSessions)
  end.

(** The [onTextChunk] callback of the streaming branch; its state is the
    [buffer] variable and the frames enqueued so far. *)
Definition onTextChunk (sessionId model_ : string) (token : string)
    (st : string * list Frame) : M (string * list Frame) :=
  let buffer := fst st +:+ token in
  if Js.includes buffer " " || Js.includes buffer Js.nl then
    created <- Date_now ;;
    let chunk :=
      {| chunk_id := sessionId; chunk_created := created;
         chunk_model := model_; delta_content := buffer;
         chunk_finish_reason := None |} in
    ret ("", (snd st ++ [FrameChunk chunk])%list)
  else ret (buffer, snd st).

(** [start(controller)] of the response stream. *)
Definition stream_start (session : ChatSession) (sessionId model_ : string)
    (text : string) (options : PromptOptions) : M Response :=
  r <- session_prompt session text options (onTextChunk sessionId model_)
                      ("", []) ;;
  let buffer := fst (snd r) in
  let queue := snd (snd r) in
  match fst r with
  | inl error => ret (EventStream queue (Errored error))
  | inr _ =>
      queue <-
        (if Js.truthy buffer then
           created <- Date_now ;;
           let chunk :=
             {| chunk_id := sessionId; chunk_created := created;
                chunk_model := model_; delta_content := buffer;
                chunk_finish_reason := Some "stop" |} in
           ret (queue ++ [FrameChunk chunk])%list
         else ret queue) ;;
      ret (EventStream (queue ++ [FrameDone])%list Closed)
  end.

(** [!Array.isArray(messages) || messages.length === 0] *)
Definition no_messages (messages : option (list Message)) : bool :=
  match messages with
  | Some (_ :: _) => false
  | _ => true
  end.

Definition handleChatCompletion (req : ChatRequest) : M Response :=
  try_catch
    (let temperature := default (7 # 10)%Q (chat_temperature req) in
     let max_tokens := chat_max_tokens req in
     let stream := default false (chat_stream req) in
     if negb (Js.truthy_field (chat_model req))
        || no_messages (chat_messages req) then
       ret (invalid_request
              "Missing required parameters: model, messages (array)"
              (if negb (Js.truthy_field (chat_model req)) then "model"
               else "messages"))
     else
       let model_ := default "" (chat_model req) in
       let messages := default [] (chat_messages req) in
       let chatSessions : gmap string ChatSession := ∅ in
       modelContext <- loadModel model_ chat ;;
       now <- Date_now ;;
       let sessionId := model_ +:+ "-" +:+ pretty now in
       let systemPrompt := systemPrompt_of messages in
       acquired <- acquireSession chatSessions sessionId modelContext
                                  systemPrompt ;;
       let session := fst acquired in
       let options :=
         {| temperature := temperature; maxTokens := max_tokens |} in
       if stream then
         stream_start session sessionId model_ (last_content messages) options
       else
         r <- session_prompt session (last_content messages) options
                             (fun _ (s : unit) => ret s) tt ;;
         match fst r with
         | inl error => throw error
         | inr response =>
             created <- Date_now ;;
             ret (Json (ChatCompletionBody sessionId (created / 1000)
                                           model_ response) 200)
         end)
    openai_catch.

End Program.

Arguments resume E t w : simpl never.

(** ** A concrete environment

    File names are joined to directories with a slash; the clock advances by
    one millisecond per reading; every artifact loads except those whose
    name contains [does-not-exist], for which the engine reports the file
    system's error. *)

Module Demo.

Definition enoent (p : string) : JsError :=
  {| err_instanceofError := true;
     err_code := Some "ENOENT";
     err_path := Some p;
     err_message := "ENOENT: no such file or directory, open '" +:+ p +:+ "'" |}.

Definition relevance (query doc : string) : Q :=
  (Z.of_nat (String.length doc) # 1)%Q.

Definition more_relevant (a b : RankedResult) : Prop :=
  (score b <= score a)%Q.

Global Instance more_relevant_dec a b : Decision (more_relevant a b).
Proof.
  unfold more_relevant.
  destruct (Qlt_le_dec (score a) (score b)) as [H | H].
  - right. intros H'. apply (Qlt_not_le _ _ H H').
  - left. exact H.
Defined.

Definition env : Env :=
  {| path_join := fun a b => a +:+ "/" +:+ b;
     projectRoot := "/srv/localLLM";
     clock := fun n => 1700000000000 + Z.of_nat n;
     loadModel_outcome := fun p =>
       if Js.includes p "does-not-exist" then Some (enoent p) else None;
     createEmbeddingContext_outcome := fun _ => None;
     createRankingContext_outcome := fun _ => None;
     createContext_outcome := fun _ => None;
     getEmbeddingFor := fun _ text =>
       inr [(Z.of_nat (String.length text) # 1)%Q];
     rankAndSort := fun _ query documents =>
       inr (merge_sort more_relevant
              (map (fun d => {| document := d; score := relevance query d |})
                   documents));
     generate := fun _ systemPrompt history text _ =>
       (["Hel"; "lo"; " wor"; "ld"; "!"], None) |}.

(** The same, with a clock that stands still: every reading falls in the
    same millisecond. *)
Definition frozen : Env :=
  {| path_join := path_join env;
     projectRoot := projectRoot env;
     clock := fun _ => 1700000000000;
     loadModel_outcome := loadModel_outcome env;
     createEmbeddingContext_outcome := createEmbeddingContext_outcome env;
     createRankingContext_outcome := createRankingContext_outcome env;
     createContext_outcome := createContext_outcome env;
     getEmbeddingFor := getEmbeddingFor env;
     rankAndSort := rankAndSort env;
     generate := generate env |}.

End Demo.


(** ** Vocabulary of the statements *)

(** The test of the sweep on one entry. *)
Definition stale (now maxAgeMs : Z) (entry : string * ModelContext) : bool :=
  now - lastUsed (snd entry) >? maxAgeMs.

(** The map after the loop of the sweep has gone through [entries]. *)
Definition swept (now maxAgeMs : Z) (entries : list (string * ModelContext))
    (m : gmap string ModelContext) : gmap string ModelContext :=
  fold_left
    (fun m entry => if stale now maxAgeMs entry then delete (fst entry) m else m)
    entries m.

(** What a finished call of [loadModel] has returned or thrown. *)
Definition result_of (t : LoadTask) : option (JsError + ModelContext) :=
  match t with
  | Returned context => Some (inr context)
  | Threw error => Some (inl error)
  | _ => None
  end.

(** [n] calls of [loadModel] for the same name and type that all start before
    any of them gets past its first [await]. *)
Definition overlapping (E : Env) (n : nat) (modelName : string) (type : ModelType)
    (w : World) : list LoadTask * World :=
  run E (seq 0 n) (replicate n (Called modelName type)) w.

(** The paths the unload handler tries for a name, in the order it tries
    them. *)
Definition unload_candidates (E : Env) (model_ : string) : list string :=
  map (fun dir => path_join E dir (model_ +:+ ".gguf")) (MODEL_DIRS_values E).

(** The first of [paths] that the map holds. *)
Definition first_cached (m : gmap string ModelContext) (paths : list string)
  : option string :=
  List.find (fun p => bool_decide (is_Some (m !! p))) paths.

(** A list in descending order of the number [f] reads off its elements. *)
Definition descending_by {A} (f : A -> Q) (l : list A) : Prop :=
  StronglySorted (fun a b => (f b <= f a)%Q) l.

(** What the engine documents of [rankAndSort]: when it returns, the results
    are sorted by descending score. *)
Definition ranks_descending (E : Env) : Prop :=
  forall p query documents ranked,
    rankAndSort E p query documents = inr ranked ->
    descending_by score ranked.

(** The three OpenAI-style routes of the application. *)
Inductive OpenAIRequest :=
  | PostEmbeddings (req : EmbeddingsRequest)
  | PostRerank (req : RerankRequest)
  | PostChatCompletions (req : ChatRequest).

Definition route (E : Env) (r : OpenAIRequest) : M Response :=
  match r with
  | PostEmbeddings req => handleEmbeddings E req
  | PostRerank req => handleRerank E req
  | PostChatCompletions req => handleChatCompletion E req
  end.

(** The model a request names and the category its route loads it in. *)
Definition requested_model (r : OpenAIRequest) : string :=
  match r with
  | PostEmbeddings req => default "" (emb_model req)
  | PostRerank req => default "" (rr_model req)
  | PostChatCompletions req => default "" (chat_model req)
  end.


(** The request has the parameters its route requires (it is not answered
    with 400 before the model is looked at). *)
Definition has_required_parameters (r : OpenAIRequest) : bool :=
  match r with
  | PostEmbeddings req =>
      Js.truthy_field (emb_model req) && truthy_input (emb_input req)
  | PostRerank req =>
      Js.truthy_field (rr_model req) && Js.truthy_field (rr_query req)
      && isArray (rr_documents req)
  | PostChatCompletions req =>
      Js.truthy_field (chat_model req) && negb (no_messages (chat_messages req))
  end.

(** The artifact at path [p] does not exist: the engine's load fails with
    the file system's error for that path. *)
Definition artifact_missing (E : Env) (p : string) : Prop :=
  exists e, loadModel_outcome E p = Some e /\
            is_ENOENT e = true /\
            err_path e = Some p.

(** Every cached path is one the engine loads. *)
Definition cache_loadable (E : Env) (w : World) : Prop :=
  forall p c, loadedModels w !! p = Some c -> loadModel_outcome E p = None.

(** The states of the process: it starts with an empty map, and then serves
    requests, loads on demand and sweeps. *)
Inductive reachable (E : Env) : World -> Prop :=
  | reachable_initial : reachable E initial
  | reachable_route r w :
      reachable E w -> reachable E (snd (route E r w))
  | reachable_handleLoad req w :
      reachable E w -> reachable E (snd (handleLoad E req w))
  | reachable_handleUnload req w :
      reachable E w -> reachable E (snd (handleUnload E req w))
  | reachable_unloadUnusedModels maxAgeMs w :
      reachable E w -> reachable E (snd (unloadUnusedModels E maxAgeMs w)).

(** A computation that keeps every cached path loadable. *)
Definition keeps_loadable (E : Env) {A} (m : M A) : Prop :=
  forall w, cache_loadable E w -> cache_loadable E (snd (m w)).


Definition with_stream (req : ChatRequest) (stream : bool) : ChatRequest :=
  {| chat_model := chat_model req; chat_messages := chat_messages req;
     chat_temperature := chat_temperature req;
     chat_max_tokens := chat_max_tokens req; chat_stream := Some stream |}.


(** The [delta.content] fields of the chunks of a stream, in order; the
    [DONE] frame has none. *)
Definition delta_contents (frames : list Frame) : list string :=
  flat_map (fun f => match f with
                     | FrameChunk c => [delta_content c]
                     | FrameDone => []
                     end) frames.

(** The session a chat request builds on the model it has acquired, given
    the sequence of the context created for it. *)
Definition session_for (req : ChatRequest) (modelContext : ModelContext)
    (sequence : nat) : ChatSession :=
  {| session_model := model modelContext;
     session_systemPrompt := systemPrompt_of (default [] (chat_messages req));
     session_sequence := sequence;
     session_template := chat_template;
     session_history := [] |}.

Definition options_of (req : ChatRequest) : PromptOptions :=
  {| temperature := default (7 # 10)%Q (chat_temperature req);
     maxTokens := chat_max_tokens req |}.

(** The answer to a chat request is a completion or a stream, not an
    error. *)
Definition chat_succeeded (r : JsError + Response) : bool :=
  match r with
  | inr (Json (ChatCompletionBody _ _ _ _) _) => true
  | inr (EventStream _ _) => true
  | _ => false
  end.

(** What a chat request asks of the engine. *)
Definition chat_request_events (E : Env) (req : ChatRequest) (w : World)
  : list EngineEvent :=
  drop (length (trace w)) (trace (snd (handleChatCompletion E req w))).

(** ** GET /v1/models *)

(** The file system as the listing sees it, external like the engine:
    [fs.readdir(dir)] (the names in the directory, or the value thrown) and
    Node's [path.basename(file, ext)]. *)
Record Fs := mkFs {
  readdir : string -> JsError + list string;
  basename : string -> string -> string;
}.

(** An element of the listing: [{name, type, loaded}]. *)
Record ModelInfo := mkModelInfo {
  mi_name : string;
  mi_type : ModelType;
  mi_loaded : bool;
}.

(** The answer of the listing route: the array of models, or the error
    object of its outer [catch]. *)
Inductive ModelsResponse :=
  | ModelList (models : list ModelInfo)
  | ModelsError (body : Body) (status : Z).

(** [xs.map(f)] for a callback with effects, and [Promise.all] of the
    results when nothing else runs in between. *)
Fixpoint map_M {A B} (f : A -> M B) (xs : list A) : M (list B) :=
  match xs with
  | [] => ret []
  | x :: rest =>
      y <- f x ;;
      ys <- map_M f rest ;;
      ret (y :: ys)
  end.

(** [Object.entries(MODEL_DIRS)] *)
Definition MODEL_DIRS_entries (E : Env) : list (ModelType * string) :=
  [(embedding, MODEL_DIRS E embedding);
   (reranker, MODEL_DIRS E reranker);
   (chat, MODEL_DIRS E chat)].

(** [await fs.readdir(dir)] *)
Definition fs_readdir (F : Fs) (dir : string) : M (list string) := fun w =>
  (readdir F dir, w).

(** The callback over the entries of [MODEL_DIRS]: the [.gguf] files of one
    directory, each with its membership in the cache; an empty list when the
    directory cannot be read. *)
Definition listDirectory (E : Env) (F : Fs) (entry : ModelType * string)
  : M (list ModelInfo) :=
  let type := fst entry in
  let dir := snd entry in
  try_catch
    (files <- fs_readdir F dir ;;
     map_M (fun file =>
              loaded <- cache_has (path_join E dir file) ;;
              ret {| mi_name := basename F file ".gguf";
                     mi_type := type;
                     mi_loaded := loaded |})
           (List.filter (fun file => Js.endsWith file ".gguf") files))
    (fun _ => ret []).

Definition handleModels (E : Env) (F : Fs) : M ModelsResponse :=
  try_catch
    (availableModels <- map_M (listDirectory E F) (MODEL_DIRS_entries E) ;;
     let models := List.concat availableModels in
     ret (ModelList models))
    (fun error =>
       ret (ModelsError (ErrorBody (message_of error) "server_error" None None)
                        500)).

(** A file system for the concrete environment: one artifact and one stray
    file in the chat directory, an embedding directory that cannot be read,
    and an empty reranker directory. *)
Definition demo_fs : Fs :=
  {| readdir := fun dir =>
       if String.eqb dir "/srv/localLLM/models/chat"
       then inr ["m.gguf"; "notes.txt"]
       else if String.eqb dir "/srv/localLLM/models/embedding"
       then inl {| err_instanceofError := true; err_code := Some "EACCES";
                   err_path := Some dir; err_message := "permission denied" |}
       else inr [];
     basename := fun file ext =>
       if Js.endsWith file ext
       then substring 0 (String.length file - String.length ext) file
       else file |}.

(** An environment whose [path.join] resolves a leading [../] against the
    models directory, as Node's does for the directories of this program;
    the rest is the concrete environment. *)
Definition demo_dotdot : Env :=
  {| path_join := fun a b =>
       if String.prefix "../" b
       then "/srv/localLLM/models/" +:+ substring 3 (String.length b - 3) b
       else a +:+ "/" +:+ b;
     projectRoot := projectRoot Demo.env;
     clock := clock Demo.env;
     loadModel_outcome := loadModel_outcome Demo.env;
     createEmbeddingContext_outcome := createEmbeddingContext_outcome Demo.env;
     createRankingContext_outcome := createRankingContext_outcome Demo.env;
     createContext_outcome := createContext_outcome Demo.env;
     getEmbeddingFor := getEmbeddingFor Demo.env;
     rankAndSort := rankAndSort Demo.env;
     generate := generate Demo.env |}.

(** An environment whose engine cannot embed the text [boom] and fails in
    the middle of a generation; the rest is the concrete environment. *)
Definition demo_failing : Env :=
  {| path_join := path_join Demo.env;
     projectRoot := projectRoot Demo.env;
     clock := clock Demo.env;
     loadModel_outcome := loadModel_outcome Demo.env;
     createEmbeddingContext_outcome := createEmbeddingContext_outcome Demo.env;
     createRankingContext_outcome := createRankingContext_outcome Demo.env;
     createContext_outcome := createContext_outcome Demo.env;
     getEmbeddingFor := fun p text =>
       if String.eqb text "boom"
       then inl {| err_instanceofError := true; err_code := None;
                   err_path := None; err_message := "cannot embed" |}
       else getEmbeddingFor Demo.env p text;
     rankAndSort := rankAndSort Demo.env;
     generate := fun _ _ _ _ _ =>
       (["Hel"; "lo "; "wor"],
        Some {| err_instanceofError := true; err_code := None;
                err_path := None; err_message := "context overflow" |}) |}.

(** ** Vocabulary of the further statements *)

Definition is_dispose (ev : EngineEvent) : bool :=
  match ev with EvDispose _ => true | _ => false end.

(** What the listing reports for one directory. *)
Definition listed (E : Env) (F : Fs) (w : World) (entry : ModelType * string)
  : list ModelInfo :=
  match readdir F (snd entry) with
  | inl _ => []
  | inr files =>
      map (fun file =>
             {| mi_name := basename F file ".gguf";
                mi_type := fst entry;
                mi_loaded :=
                  bool_decide (is_Some (loadedModels w
                                          !! path_join E (snd entry) file)) |})
          (List.filter (fun file => Js.endsWith file ".gguf") files)
  end.


(** A computation that leaves the map alone and asks nothing of the engine
    but loads, contexts, embeddings, rankings and prompts. *)
Definition quiet {A} (m : M A) : Prop :=
  forall w,
    loadedModels (snd (m w)) = loadedModels w /\
    exists evs, trace (snd (m w)) = trace w ++ evs /\
                forallb (fun ev => negb (is_dispose ev)) evs = true.


(** The white space that makes the streaming callback flush its buffer. *)
Definition has_break (s : string) : bool :=
  Js.includes s " " || Js.includes s Js.nl.

(** * Properties *)

(** ** Strings *)

Lemma append_cons (x : ascii) (a b : string) :
  String x a +:+ b = String x (a +:+ b).
Proof. reflexivity. Qed.

Lemma append_empty_l (a : string) : "" +:+ a = a.
Proof. reflexivity. Qed.

Lemma append_assoc (a b c : string) : (a +:+ b) +:+ c = a +:+ (b +:+ c).
Proof.
  induction a as [| x a IH]; [reflexivity |].
  now rewrite !append_cons, IH.
Qed.

Lemma append_empty_r (a : string) : a +:+ "" = a.
Proof.
  induction a as [| x a IH]; [reflexivity |].
  now rewrite append_cons, IH.
Qed.

Lemma concat_app (l1 l2 : list string) :
  Js.concat (l1 ++ l2) = Js.concat l1 +:+ Js.concat l2.
Proof.
  induction l1 as [| x l1 IH]; [reflexivity |].
  change (x +:+ Js.concat (l1 ++ l2) = (x +:+ Js.concat l1) +:+ Js.concat l2).
  now rewrite IH, append_assoc.
Qed.

Lemma prefix_append (p b : string) : String.prefix p (p +:+ b) = true.
Proof.
  induction p as [| x p IH].
  - now destruct b.
  - rewrite append_cons. simpl.
    destruct (Ascii.ascii_dec x x) as [_ | Hne]; [exact IH | now destruct Hne].
Qed.

Lemma includes_prefix (s sub : string) :
  String.prefix sub s = true -> Js.includes s sub = true.
Proof. intros H. destruct s; simpl in *; rewrite H; reflexivity. Qed.

Lemma includes_append (a p b : string) : Js.includes (a +:+ p +:+ b) p = true.
Proof.
  induction a as [| x a IH].
  - rewrite append_empty_l. apply includes_prefix, prefix_append.
  - rewrite append_cons.
    change (Js.includes (String x (a +:+ p +:+ b)) p)
      with (if String.prefix p (String x (a +:+ p +:+ b)) then true
            else Js.includes (a +:+ p +:+ b) p).
    destruct (String.prefix p (String x (a +:+ p +:+ b))); [reflexivity | exact IH].
Qed.

(** ** The cache under [loadModel] *)

Section LoadModel.

Variable E : Env.

Ltac run_M :=
  unfold bind, ret, throw, settle, try_catch, cache_get, cache_has, cache_set,
    cache_delete, cache_entries, emit, Date_now, dispose; simpl.

(** A hit refreshes the entry and asks nothing of the engine. *)
Lemma loadModel_hit modelName type w existing :
  loadedModels w !! modelPath E modelName type = Some existing ->
  loadModel E modelName type w =
    (inr (set_lastUsed (clock E (reads w)) existing),
     {| loadedModels :=
          <[modelPath E modelName type :=
              set_lastUsed (clock E (reads w)) existing]> (loadedModels w);
        reads := S (reads w);
        trace := trace w |}).
Proof.
  intros Hget. unfold loadModel. run_M. rewrite Hget. reflexivity.
Qed.

(** What a successful call leaves behind, hit or miss. *)
Lemma loadModel_ok modelName type w context w' :
  loadModel E modelName type w = (inr context, w') ->
  lastUsed context = clock E (reads w) /\
  reads w' = S (reads w) /\
  loadedModels w' = <[modelPath E modelName type := context]> (loadedModels w) /\
  match loadedModels w !! modelPath E modelName type with
  | Some existing =>
      trace w' = trace w /\ context = set_lastUsed (clock E (reads w)) existing
  | None =>
      loadModel_outcome E (modelPath E modelName type) = None /\
      model context = {| handle := length (trace w);
                         modelPath_of := modelPath E modelName type |} /\
      exists created, trace w' = trace w ++ EvLoad (modelPath E modelName type) :: created /\
                      forallb (fun ev => negb (is_load ev)) created = true
  end.
Proof.
  unfold loadModel, llama_loadModel, createEmbeddingContext, createRankingContext.
  run_M.
  destruct (loadedModels w !! modelPath E modelName type) as [existing |] eqn:Hget.
  - intros [= <- <-]. simpl. auto.
  - destruct (loadModel_outcome E (modelPath E modelName type)) as [e |] eqn:Hload;
      simpl; [discriminate |].
    destruct type; simpl.
    + destruct (createEmbeddingContext_outcome E _); simpl; [discriminate |].
      intros [= <- <-]. simpl. repeat split; auto.
      eexists. rewrite <- app_assoc. simpl. split; reflexivity.
    + destruct (createRankingContext_outcome E _); simpl; [discriminate |].
      intros [= <- <-]. simpl. repeat split; auto.
      eexists. rewrite <- app_assoc. simpl. split; reflexivity.
    + intros [= <- <-]. simpl. repeat split; auto.
      exists []. split; reflexivity.
Qed.

(** A call that throws leaves the map as it was: the entry is stored only
    after the model and its context exist. *)
Lemma loadModel_throws modelName type w error w' :
  loadModel E modelName type w = (inl error, w') ->
  loadedModels w' = loadedModels w /\
  loadedModels w !! modelPath E modelName type = None /\
  (loadModel_outcome E (modelPath E modelName type) = Some error \/
   loadModel_outcome E (modelPath E modelName type) = None).
Proof.
  unfold loadModel, llama_loadModel, createEmbeddingContext, createRankingContext.
  run_M.
  destruct (loadedModels w !! modelPath E modelName type) as [existing |] eqn:Hget;
    [discriminate |].
  destruct (loadModel_outcome E (modelPath E modelName type)) as [e |] eqn:Hload;
    simpl.
  - intros [= <- <-]. simpl. auto.
  - destruct type; simpl.
    + destruct (createEmbeddingContext_outcome E _); simpl;
        intros [= <-]; subst; simpl; auto.
    + destruct (createRankingContext_outcome E _); simpl;
        intros [= <-]; subst; simpl; auto.
    + discriminate.
Qed.

(** When the path is not cached and the engine rejects the load, the call
    throws what the engine rejected with. *)
Lemma loadModel_rejected modelName type w error :
  loadedModels w !! modelPath E modelName type = None ->
  loadModel_outcome E (modelPath E modelName type) = Some error ->
  exists w', loadModel E modelName type w = (inl error, w') /\
             loadedModels w' = loadedModels w.
Proof.
  intros Hget Hload. unfold loadModel, llama_loadModel. run_M.
  rewrite Hget, Hload. simpl. eexists. split; reflexivity.
Qed.

(** C9: a call of [loadModel] that succeeds, on a hit or after a load,
    returns an entry whose [lastUsed] is the time the call has read (it
    reads the clock once), and that entry is the one the map then holds
    for the path. *)
Theorem loadModel_refreshes_lastUsed modelName type w context w' :
  loadModel E modelName type w = (inr context, w') ->
  lastUsed context = clock E (reads w) /\
  reads w' = S (reads w) /\
  loadedModels w' !! modelPath E modelName type = Some context.
Proof.
  intros Hok. apply loadModel_ok in Hok as (Hused & Hreads & Hmap & _).
  repeat split; [exact Hused | exact Hreads |].
  rewrite Hmap. apply lookup_insert_eq.
Qed.

End LoadModel.

(** ** The idle sweep *)

Section Sweep.

Variable E : Env.

Lemma sweep_loop now maxAgeMs entries w :
  for_of entries
    (fun '(path, context) (_ : unit) =>
       if now - lastUsed context >? maxAgeMs then
         (_ <- dispose (model context) ;; cache_delete path)%js
       else ret tt)
    tt w =
  (inr tt,
   {| loadedModels := swept now maxAgeMs entries (loadedModels w);
      reads := reads w;
      trace := trace w ++
               map (fun entry => EvDispose (model (snd entry)))
                   (List.filter (stale now maxAgeMs) entries) |}).
Proof.
  revert w. induction entries as [| [path context] rest IH]; intros w.
  - simpl. unfold ret. rewrite app_nil_r. now destruct w.
  - simpl. unfold bind at 1. unfold stale at 1 2. simpl.
    destruct (now - lastUsed context >? maxAgeMs) eqn:Hstale.
    + unfold bind, dispose, emit, cache_delete at 1. simpl.
      rewrite IH. simpl. now rewrite <- app_assoc.
    + unfold ret at 1. now rewrite IH.
Qed.

Lemma swept_lookup_stale now maxAgeMs entries m path context :
  (path, context) ∈ entries ->
  stale now maxAgeMs (path, context) = true ->
  swept now maxAgeMs entries m !! path = None.
Proof.
  assert (Hgone : forall l m', m' !! path = None ->
                               swept now maxAgeMs l m' !! path = None).
  { induction l as [| entry l IH]; intros m' Hm'; simpl; [exact Hm' |].
    apply IH. destruct (stale now maxAgeMs entry); [| exact Hm'].
    destruct (decide (fst entry = path)) as [-> | Hne].
    - apply lookup_delete_eq.
    - now rewrite lookup_delete_ne. }
  revert m. induction entries as [| entry rest IH]; intros m Hin Hstale.
  - now apply elem_of_nil in Hin.
  - apply elem_of_cons in Hin as [<- | Hin]; simpl.
    + rewrite Hstale. apply Hgone. simpl. apply lookup_delete_eq.
    + now apply IH.
Qed.

Lemma swept_lookup_fresh now maxAgeMs entries m path :
  (forall context, (path, context) ∈ entries ->
                   stale now maxAgeMs (path, context) = false) ->
  swept now maxAgeMs entries m !! path = m !! path.
Proof.
  revert m. induction entries as [| [q c] rest IH]; intros m Hfresh; simpl;
    [reflexivity |].
  rewrite IH.
  - destruct (stale now maxAgeMs (q, c)) eqn:Hstale; [| reflexivity].
    simpl. destruct (decide (q = path)) as [-> | Hne].
    + rewrite Hfresh in Hstale; [discriminate | apply elem_of_cons; now left].
    + now rewrite lookup_delete_ne.
  - intros context Hin. apply Hfresh, elem_of_cons. now right.
Qed.


End Sweep.

(** A first call loads and stamps the entry with the first reading of the
    clock; a second call hits the entry and stamps it with the next. *)
Lemma loadModel_refreshes_lastUsed_witness :
  let first := loadModel Demo.env "m" chat initial in
  let second := loadModel Demo.env "m" chat (snd first) in
  (exists c, fst first = inr c /\ lastUsed c = 1700000000000) /\
  (exists c, fst second = inr c /\ lastUsed c = 1700000000001 /\
             loadedModels (snd second) !! modelPath Demo.env "m" chat = Some c).
Proof.
  split.
  - destruct (loadModel Demo.env "m" chat initial) as [[e | c] w1] eqn:H1;
      [vm_compute in H1; discriminate |].
    exists c. split; [reflexivity |].
    apply (loadModel_refreshes_lastUsed Demo.env "m" chat initial c w1 H1).
  - destruct (loadModel Demo.env "m" chat
                (snd (loadModel Demo.env "m" chat initial))) as [[e | c] w2] eqn:H2;
      [vm_compute in H2; discriminate |].
    exists c. split; [reflexivity |].
    destruct (loadModel_refreshes_lastUsed Demo.env "m" chat _ c w2 H2)
      as (Hused & _ & Hmap).
    split; [| exact Hmap].
    rewrite Hused. vm_compute. reflexivity.
Defined.

(** ** Calls of [loadModel] that overlap *)

Section Overlap.

Variable E : Env.

Lemma loads_of_snoc p w ev :
  length (List.filter (is_load_of p) (trace w ++ [ev])) =
  (loads_of p w + if is_load_of p ev then 1 else 0)%nat.
Proof.
  unfold loads_of. rewrite List.filter_app, length_app. simpl.
  destruct (is_load_of p ev); reflexivity.
Qed.

Lemma is_load_of_refl p : is_load_of p (EvLoad p) = true.
Proof. simpl. apply String.eqb_refl. Qed.

(** The first stretch of a call that finds no entry: the load is asked of
    the engine and the map is not touched. *)
Lemma resume_Called_miss modelName type w :
  loadedModels w !! modelPath E modelName type = None ->
  exists settled,
    resume E (Called modelName type) w =
      (AwaitingModel (modelPath E modelName type) type settled,
       {| loadedModels := loadedModels w; reads := reads w;
          trace := trace w ++ [EvLoad (modelPath E modelName type)] |}).
Proof.
  intros Hget. unfold resume. rewrite Hget.
  unfold llama_loadModel, bind, emit, settle, throw, ret. simpl.
  destruct (loadModel_outcome E (modelPath E modelName type)); simpl;
    eexists; reflexivity.
Qed.

(** Running a call without interruption is [loadModel]. *)
Lemma uninterrupted_loadModel modelName type w :
  exists r,
    result_of (fst (uninterrupted E modelName type w)) = Some r /\
    loadModel E modelName type w = (r, snd (uninterrupted E modelName type w)).
Proof.
  unfold uninterrupted, resume, finish, loadModel, llama_loadModel,
    createEmbeddingContext, createRankingContext, bind, ret, throw, settle,
    cache_get, cache_set, emit, Date_now.
  simpl.
  destruct (loadedModels w !! modelPath E modelName type) as [existing |]; simpl.
  - eexists. split; reflexivity.
  - destruct (loadModel_outcome E (modelPath E modelName type)); simpl.
    + eexists. split; reflexivity.
    + destruct type; simpl.
      * destruct (createEmbeddingContext_outcome E _); simpl;
          eexists; split; reflexivity.
      * destruct (createRankingContext_outcome E _); simpl;
          eexists; split; reflexivity.
      * eexists. split; reflexivity.
Qed.

Lemma run_overlapping modelName type n : forall started w,
  loadedModels w !! modelPath E modelName type = None ->
  let r := run E (seq (length started) n)
               (started ++ replicate n (Called modelName type)) w in
  loads_of (modelPath E modelName type) (snd r) =
    (loads_of (modelPath E modelName type) w + n)%nat /\
  loadedModels (snd r) = loadedModels w.
Proof.
  induction n as [| n IH]; intros started w Hget.
  - simpl. split; [lia | reflexivity].
  - destruct (resume_Called_miss modelName type w Hget) as [settled Hstep].
    cbn [seq replicate run].
    rewrite list_lookup_middle by reflexivity.
    rewrite Hstep. cbn [fst snd].
    replace (<[length started := AwaitingModel (modelPath E modelName type) type settled]>
               (started ++ Called modelName type :: replicate n (Called modelName type)))
      with ((started ++ [AwaitingModel (modelPath E modelName type) type settled])
              ++ replicate n (Called modelName type)).
    2:{ rewrite insert_app_r_alt by lia. rewrite Nat.sub_diag. simpl.
        now rewrite <- app_assoc. }
    replace (S (length started))
      with (length (started ++ [AwaitingModel (modelPath E modelName type) type settled]))
      by (rewrite length_app; simpl; lia).
    specialize (IH (started ++ [AwaitingModel (modelPath E modelName type) type settled])
                   {| loadedModels := loadedModels w; reads := reads w;
                      trace := trace w ++ [EvLoad (modelPath E modelName type)] |}
                   Hget).
    cbn zeta in IH. destruct IH as [Hloads Hmap].
    split; [| exact Hmap].
    rewrite Hloads. unfold loads_of at 1. cbn [trace].
    rewrite loads_of_snoc, is_load_of_refl. lia.
Qed.

(** C1, as the code has it: there is no record of a load in flight, so a
    call that finds no entry asks the engine for a load of its own.  [n]
    calls that overlap before any load has settled make [n] loads; a call
    made after an earlier one has returned makes none and gets that entry;
    and a call that throws leaves the map as it was. *)
Theorem loadModel_loads_once_per_miss modelName type w :
  let p := modelPath E modelName type in
  (loadedModels w !! p = None ->
   forall n,
     loads_of p (snd (overlapping E n modelName type w)) = (loads_of p w + n)%nat /\
     loadedModels (snd (overlapping E n modelName type w)) = loadedModels w) /\
  (forall c w1,
     loadedModels w !! p = None ->
     loadModel E modelName type w = (inr c, w1) ->
     loads_of p w1 = S (loads_of p w) /\
     exists w2,
       loadModel E modelName type w1 =
         (inr (set_lastUsed (clock E (reads w1)) c), w2) /\
       loads_of p w2 = loads_of p w1) /\
  (forall e w1,
     loadModel E modelName type w = (inl e, w1) ->
     loadedModels w1 = loadedModels w).
Proof.
  intros p. split; [| split].
  - intros Hget n. apply (run_overlapping modelName type n [] w Hget).
  - intros c w1 Hget Hok.
    pose proof (loadModel_ok E _ _ _ _ _ Hok) as (_ & _ & Hmap & Htrace).
    fold p in Hmap, Htrace. rewrite Hget in Htrace.
    destruct Htrace as (_ & _ & created & Htrace & Hnone).
    split.
    + unfold loads_of. rewrite Htrace, List.filter_app, length_app. simpl.
      rewrite String.eqb_refl. simpl.
      assert (Hempty : List.filter (is_load_of p) created = []).
      { clear -Hnone. induction created as [| ev rest IH]; [reflexivity |].
        simpl in Hnone. apply andb_true_iff in Hnone as [Hev Hrest].
        simpl. destruct ev; simpl in *; try discriminate; auto. }
      rewrite Hempty. simpl. lia.
    + assert (Hhit : loadedModels w1 !! p = Some c)
        by (rewrite Hmap; apply lookup_insert_eq).
      rewrite (loadModel_hit E modelName type w1 c Hhit).
      eexists. split; [reflexivity | reflexivity].
  - intros e w1 Hthrow. now apply loadModel_throws in Hthrow as (Hmap & _).
Qed.

End Overlap.

(** Two calls for the same uncached chat model, each run up to its [await]
    before the other goes on: the engine is asked twice, and the entry of the
    call that finishes last replaces the other. *)
Lemma two_overlapping_calls_load_twice :
  let p := modelPath Demo.env "m" chat in
  let r := run Demo.env [0; 1; 0; 1]%nat [Called "m" chat; Called "m" chat] initial in
  loadedModels initial !! p = None /\
  (exists c1 c2, fst r = [Returned c1; Returned c2] /\ model c1 <> model c2) /\
  loads_of p (snd r) = 2%nat /\
  ~ loads_of p (snd r) = 1%nat.
Proof.
  vm_compute. split; [reflexivity |]. split; [| split; [reflexivity | discriminate]].
  eexists _, _. split; [reflexivity | discriminate].
Qed.

Lemma loadModel_loads_once_per_miss_witness :
  let p := modelPath Demo.env "m" embedding in
  loadedModels initial !! p = None /\
  loads_of p (snd (overlapping Demo.env 3 "m" embedding initial)) = 3%nat.
Proof.
  split; [reflexivity |].
  apply (proj1 (loadModel_loads_once_per_miss Demo.env "m" embedding initial)
           eq_refl 3%nat).
Defined.

(** ** Unloading by name *)

Section Unload.

Variable E : Env.

Lemma findModelPath_first_cached model_ w : forall dirs,
  findModelPath E dirs model_ w =
    (inr (first_cached (loadedModels w)
            (map (fun dir => path_join E dir (model_ +:+ ".gguf")) dirs)), w).
Proof.
  induction dirs as [| dir rest IH]; [reflexivity |].
  simpl. unfold bind at 1, cache_has at 1. simpl.
  destruct (bool_decide (is_Some (loadedModels w !! path_join E dir (model_ +:+ ".gguf"))));
    [reflexivity | exact IH].
Qed.

Lemma first_cached_Some m paths p :
  first_cached m paths = Some p -> p ∈ paths /\ is_Some (m !! p).
Proof.
  intros Hfind. apply List.find_some in Hfind as [Hin Hhas].
  split; [now apply list_elem_of_In | now apply bool_decide_eq_true in Hhas].
Qed.


(** The name matches an entry: the first candidate the map holds is disposed
    of and deleted, and the handler answers with success. *)
Lemma handleUnload_found model_ w p :
  Js.truthy model_ = true ->
  first_cached (loadedModels w) (unload_candidates E model_) = Some p ->
  Js.truthy p = true ->
  exists c,
    loadedModels w !! p = Some c /\
    handleUnload E {| ul_model := Some model_ |} w =
      (inr (Json (MessageBody "Model unloaded successfully") 200),
       {| loadedModels := delete p (loadedModels w);
          reads := reads w;
          trace := trace w ++ [EvDispose (model c)] |}).
Proof.
  intros Hname Hfind Hp.
  destruct (first_cached_Some _ _ _ Hfind) as [_ [c Hget]].
  exists c. split; [exact Hget |].
  unfold handleUnload, try_catch. cbn [ul_model Js.truthy_field].
  rewrite Hname. cbn [negb default from_option id]. unfold bind at 1.
  rewrite findModelPath_first_cached.
  fold (unload_candidates E model_). rewrite Hfind. simpl. rewrite Hp. simpl.
  unfold bind, cache_get, cache_delete, dispose, emit, ret. simpl.
  rewrite Hget. reflexivity.
Qed.

(** The name matches no entry: the handler answers 404 and nothing changes. *)
Lemma handleUnload_not_found model_ w :
  Js.truthy model_ = true ->
  first_cached (loadedModels w) (unload_candidates E model_) = None ->
  handleUnload E {| ul_model := Some model_ |} w =
    (inr (Json (FlatErrorBody "Model not found or not loaded") 404), w).
Proof.
  intros Hname Hfind.
  unfold handleUnload, try_catch. cbn [ul_model Js.truthy_field].
  rewrite Hname. cbn [negb default from_option id]. unfold bind at 1.
  rewrite findModelPath_first_cached.
  fold (unload_candidates E model_). rewrite Hfind. reflexivity.
Qed.


End Unload.

(** C3, where the code departs from it: a chat model loaded under the name
    [m.gguf] is cached under [.../chat/m.gguf]; the unload handler appends
    the extension once more, looks for [.../m.gguf.gguf] in the three
    directories, answers 404 and leaves the entry in the map. *)
Theorem unload_misses_name_with_extension :
  let loaded :=
    handleLoad Demo.env {| ld_model := Some "m.gguf"; ld_type := Some "chat" |}
               initial in
  let w := snd loaded in
  let r := handleUnload Demo.env {| ul_model := Some "m.gguf" |} w in
  fst loaded = inr (Json (MessageBody "Model loaded successfully") 200) /\
  (exists c, loadedModels w !! "/srv/localLLM/models/chat/m.gguf" = Some c) /\
  unload_candidates Demo.env "m.gguf" =
    ["/srv/localLLM/models/embedding/m.gguf.gguf";
     "/srv/localLLM/models/reranker/m.gguf.gguf";
     "/srv/localLLM/models/chat/m.gguf.gguf"] /\
  fst r = inr (Json (FlatErrorBody "Model not found or not loaded") 404) /\
  snd r = w.
Proof.
  vm_compute. split; [reflexivity |]. split; [eexists; reflexivity |].
  repeat split; reflexivity.
Qed.

(** ** Embeddings *)

Section Embeddings.

Variable E : Env.

(** The loop of the handler: every input gets one entry, pushed after the
    entries already there and numbered by its position. *)
Lemma embeddings_loop ctx : forall inputs acc w embeddings w',
  for_of inputs
    (fun text embeddings =>
       (vector <- embed E ctx text ;;
        ret (embeddings ++
             [{| ei_embedding := vector; ei_index := length embeddings |}]))%js)
    acc w = (inr embeddings, w') ->
  exists vectors,
    Forall2 (fun text v => getEmbeddingFor E (modelPath_of ctx) text = inr v)
            inputs vectors /\
    embeddings =
      acc ++ imap (fun i v => {| ei_embedding := v;
                                 ei_index := (length acc + i)%nat |}) vectors.
Proof.
  induction inputs as [| text rest IH]; intros acc w embeddings w' Hloop.
  - injection Hloop as <- <-. exists []. split; [constructor |].
    simpl. now rewrite app_nil_r.
  - simpl in Hloop. unfold bind at 1 in Hloop.
    unfold embed in Hloop. unfold bind at 1 in Hloop.
    unfold emit in Hloop. cbn [fst snd] in Hloop.
    destruct (getEmbeddingFor E (modelPath_of ctx) text) as [e | v] eqn:Hv;
      [discriminate |].
    apply IH in Hloop as (vectors & Hall & ->).
    exists (v :: vectors). split; [now constructor |].
    rewrite <- app_assoc. simpl. f_equal. f_equal.
    + f_equal. lia.
    + apply imap_ext. intros i x _. simpl. f_equal.
      rewrite length_app. simpl. lia.
Qed.

Lemma map_eta_EmbeddingItem (l : list EmbeddingItem) :
  map (fun e => {| ei_embedding := ei_embedding e; ei_index := ei_index e |}) l = l.
Proof.
  induction l as [| [v i] l IH]; [reflexivity |]. simpl. now rewrite IH.
Qed.

(** C6: a successful embeddings response has one entry per input, in the
    order of the inputs; the entry at position [i] has index [i] and holds
    the vector the engine gave for the input at position [i].  A single
    string is a list of one input. *)
Theorem embeddings_in_input_order req w data model_ w' :
  handleEmbeddings E req w = (inr (Json (EmbeddingsBody data model_) 200), w') ->
  let inputs := inputs_of (emb_input req) in
  (forall s, emb_input req = Some (InputString s) -> inputs = [s]) /\
  length data = length inputs /\
  exists ctx,
    forall i text,
      inputs !! i = Some text ->
      exists item,
        data !! i = Some item /\
        ei_index item = i /\
        getEmbeddingFor E (modelPath_of ctx) text = inr (ei_embedding item).
Proof.
  intros Hresp inputs.
  split; [intros s Hs; subst inputs; now rewrite Hs |].
  unfold handleEmbeddings, try_catch, openai_catch, invalid_request in Hresp.
  destruct (negb (Js.truthy_field (emb_model req)) || negb (truthy_input (emb_input req)));
    [discriminate |].
  unfold bind at 1 in Hresp.
  destruct (loadModel E (default "" (emb_model req)) embedding w) as [[e | mc] w1].
  { destruct (is_ENOENT e); discriminate. }
  destruct (embeddingContext mc) as [ctx |]; [| discriminate].
  unfold bind at 1 in Hresp. fold inputs in Hresp.
  match type of Hresp with
  | context [for_of inputs ?body [] w1] =>
      destruct (for_of inputs body [] w1) as [[e | embeddings] w2] eqn:Hloop
  end.
  { destruct (is_ENOENT e); discriminate. }
  unfold ret in Hresp. injection Hresp as <- <- <-.
  apply embeddings_loop in Hloop as (vectors & Hall & ->).
  rewrite map_eta_EmbeddingItem. simpl.
  split; [rewrite length_imap; symmetry; exact (Forall2_length _ _ _ Hall) |].
  exists ctx. intros i text Hi.
  destruct (Forall2_lookup_l _ _ _ _ _ Hall Hi) as (v & Hv & Hemb).
  exists {| ei_embedding := v; ei_index := i |}.
  rewrite list_lookup_imap, Hv. simpl. auto.
Qed.

End Embeddings.

Lemma embeddings_in_input_order_witness :
  handleEmbeddings Demo.env
    {| emb_model := Some "m"; emb_input := Some (InputArray ["a"; "bb"]) |}
    initial
  = (inr (Json (EmbeddingsBody [{| ei_embedding := [1%Q]; ei_index := 0 |};
                                {| ei_embedding := [2%Q]; ei_index := 1 |}] "m") 200),
     snd (handleEmbeddings Demo.env
            {| emb_model := Some "m"; emb_input := Some (InputArray ["a"; "bb"]) |}
            initial)) /\
  length [{| ei_embedding := [1%Q]; ei_index := 0 |};
          {| ei_embedding := [2%Q]; ei_index := 1 |}] = 2%nat.
Proof.
  assert (H : handleEmbeddings Demo.env
    {| emb_model := Some "m"; emb_input := Some (InputArray ["a"; "bb"]) |}
    initial
  = (inr (Json (EmbeddingsBody [{| ei_embedding := [1%Q]; ei_index := 0 |};
                                {| ei_embedding := [2%Q]; ei_index := 1 |}] "m") 200),
     snd (handleEmbeddings Demo.env
            {| emb_model := Some "m"; emb_input := Some (InputArray ["a"; "bb"]) |}
            initial))) by (vm_compute; reflexivity).
  split; [exact H |].
  exact (proj1 (proj2 (embeddings_in_input_order Demo.env _ _ _ _ _ H))).
Defined.

(** ** Reranking *)

Section Rerank.

Variable E : Env.

(** Numbering the results by position keeps them in the order of their
    scores. *)
Lemma imap_descending (l : list RankedResult) :
  forall g : nat -> RankedResult -> RerankItem,
    (forall i r, ri_relevance_score (g i r) = score r) ->
    descending_by score l ->
    descending_by ri_relevance_score (imap g l).
Proof.
  unfold descending_by.
  induction l as [| x l IH]; intros g Hg Hsorted; [constructor |].
  rewrite imap_cons. apply StronglySorted_inv in Hsorted as [Hrest Hhead].
  constructor.
  - apply IH; [intros i r; apply Hg | exact Hrest].
  - apply Forall_forall. intros item Hin.
    apply elem_of_lookup_imap in Hin as (i & r & -> & Hr).
    unfold compose. rewrite !Hg.
    rewrite Forall_forall in Hhead. apply Hhead.
    eapply list_elem_of_lookup_2, Hr.
Qed.

(** The data of a successful rerank response: the engine's results, in the
    engine's order, numbered by position. *)
Lemma handleRerank_data req w model_ data w' :
  handleRerank E req w = (inr (Json (RerankBody model_ data) 200), w') ->
  exists ctx ranked,
    rankAndSort E (modelPath_of ctx) (default "" (rr_query req))
                (default [] (rr_documents req)) = inr ranked /\
    data = imap (fun index result =>
                   {| ri_document := document result;
                      ri_relevance_score := score result;
                      ri_index := index |}) ranked.
Proof.
  intros Hresp.
  unfold handleRerank, try_catch, openai_catch, invalid_request in Hresp.
  destruct (negb (Js.truthy_field (rr_model req))
            || negb (Js.truthy_field (rr_query req))
            || negb (isArray (rr_documents req))); [discriminate |].
  unfold bind at 1 in Hresp.
  destruct (loadModel E (default "" (rr_model req)) reranker w) as [[e | mc] w1].
  { destruct (is_ENOENT e); discriminate. }
  destruct (rankingContext mc) as [ctx |]; [| discriminate].
  unfold bind at 1, rank at 1 in Hresp. unfold bind at 1, emit at 1 in Hresp.
  cbn [fst snd] in Hresp.
  destruct (rankAndSort E (modelPath_of ctx) (default "" (rr_query req))
              (default [] (rr_documents req))) as [e | ranked] eqn:Hrank.
  { unfold throw in Hresp. destruct (is_ENOENT e); discriminate. }
  unfold ret in Hresp. injection Hresp as <- <- <-.
  exists ctx, ranked. split; [exact Hrank | reflexivity].
Qed.

(** C7: with an engine whose [rankAndSort] returns its results by descending
    score, the data of a rerank response is in descending order of
    [relevance_score], and the [index] of an entry is its position in that
    order: the entry at position [i] is the engine's result of rank [i]. *)
Theorem rerank_sorted_and_indexed req w model_ data w' :
  ranks_descending E ->
  handleRerank E req w = (inr (Json (RerankBody model_ data) 200), w') ->
  descending_by ri_relevance_score data /\
  (forall i item, data !! i = Some item -> ri_index item = i) /\
  exists ctx ranked,
    rankAndSort E (modelPath_of ctx) (default "" (rr_query req))
                (default [] (rr_documents req)) = inr ranked /\
    length data = length ranked /\
    forall i item,
      data !! i = Some item ->
      exists result, ranked !! i = Some result /\
                     ri_document item = document result /\
                     ri_relevance_score item = score result.
Proof.
  intros Hengine Hresp.
  destruct (handleRerank_data _ _ _ _ _ Hresp) as (ctx & ranked & Hrank & ->).
  split; [| split].
  - apply imap_descending; [reflexivity | exact (Hengine _ _ _ _ Hrank)].
  - intros i item Hitem. rewrite list_lookup_imap in Hitem.
    destruct (ranked !! i); [| discriminate]. now injection Hitem as <-.
  - exists ctx, ranked. split; [exact Hrank |]. split; [apply length_imap |].
    intros i item Hitem. rewrite list_lookup_imap in Hitem.
    destruct (ranked !! i) as [result |]; [| discriminate].
    injection Hitem as <-. exists result. auto.
Qed.

End Rerank.

Global Instance more_relevant_trans : Transitive Demo.more_relevant.
Proof. intros a b c Hab Hbc. unfold Demo.more_relevant in *. eapply Qle_trans; eauto. Qed.

Global Instance more_relevant_total : Total Demo.more_relevant.
Proof.
  intros a b. unfold Demo.more_relevant.
  destruct (Qlt_le_dec (score a) (score b)) as [H | H];
    [right; now apply Qlt_le_weak | now left].
Qed.

Lemma demo_ranks_descending : ranks_descending Demo.env.
Proof.
  intros p query documents ranked [= <-].
  apply (StronglySorted_merge_sort Demo.more_relevant).
Qed.

(** Three documents given in the order [a], [bbb], [cc] come back in the
    order [bbb], [cc], [a], with indexes 0, 1, 2. *)
Lemma rerank_sorted_and_indexed_witness :
  let req := {| rr_model := Some "m"; rr_query := Some "q";
                rr_documents := Some ["a"; "bbb"; "cc"] |} in
  let data := [{| ri_document := "bbb"; ri_relevance_score := 3; ri_index := 0 |};
               {| ri_document := "cc"; ri_relevance_score := 2; ri_index := 1 |};
               {| ri_document := "a"; ri_relevance_score := 1; ri_index := 2 |}] in
  ranks_descending Demo.env /\
  handleRerank Demo.env req initial =
    (inr (Json (RerankBody "m" data) 200), snd (handleRerank Demo.env req initial)) /\
  descending_by ri_relevance_score data.
Proof.
  intros req data.
  assert (H : handleRerank Demo.env req initial =
    (inr (Json (RerankBody "m" data) 200), snd (handleRerank Demo.env req initial)))
    by (vm_compute; reflexivity).
  split; [exact demo_ranks_descending |]. split; [exact H |].
  exact (proj1 (rerank_sorted_and_indexed Demo.env _ _ _ _ _ demo_ranks_descending H)).
Defined.

(** ** Load failures and the status of the response *)

Section LoadFailures.

Variable E : Env.

(** *** Only loadable paths are ever cached *)

Lemma keeps_ret {A} (a : A) : keeps_loadable E (ret a).
Proof. intros w Hw. exact Hw. Qed.

Lemma keeps_throw {A} (e : JsError) : keeps_loadable E (@throw A e).
Proof. intros w Hw. exact Hw. Qed.

Lemma keeps_bind {A B} (m : M A) (k : A -> M B) :
  keeps_loadable E m -> (forall a, keeps_loadable E (k a)) ->
  keeps_loadable E (bind m k).
Proof.
  intros Hm Hk w Hw. unfold bind. specialize (Hm w Hw).
  destruct (m w) as [[e | a] w1]; [exact Hm | exact (Hk a w1 Hm)].
Qed.

Lemma keeps_try_catch {A} (body : M A) (handler : JsError -> M A) :
  keeps_loadable E body -> (forall e, keeps_loadable E (handler e)) ->
  keeps_loadable E (try_catch body handler).
Proof.
  intros Hm Hk w Hw. unfold try_catch. specialize (Hm w Hw).
  destruct (body w) as [[e | a] w1]; [exact (Hk e w1 Hm) | exact Hm].
Qed.

Lemma keeps_for_of {A S} (body : A -> S -> M S) :
  (forall x s, keeps_loadable E (body x s)) ->
  forall xs s, keeps_loadable E (for_of xs body s).
Proof.
  intros Hbody. induction xs as [| x rest IH]; intros s; simpl.
  - apply keeps_ret.
  - apply keeps_bind; [apply Hbody | intros s'; apply IH].
Qed.

Lemma keeps_emit ev : keeps_loadable E (emit ev).
Proof. intros w Hw. exact Hw. Qed.

Lemma keeps_Date_now : keeps_loadable E (Date_now E).
Proof. intros w Hw. exact Hw. Qed.

Lemma keeps_cache_get p : keeps_loadable E (cache_get p).
Proof. intros w Hw. exact Hw. Qed.

Lemma keeps_cache_has p : keeps_loadable E (cache_has p).
Proof. intros w Hw. exact Hw. Qed.

Lemma keeps_cache_delete p : keeps_loadable E (cache_delete p).
Proof.
  intros w Hw q c Hget. simpl in Hget.
  apply lookup_delete_Some in Hget as [_ Hget]. exact (Hw q c Hget).
Qed.

Lemma keeps_settle {A} outcome (a : A) : keeps_loadable E (settle outcome a).
Proof. destruct outcome; [apply keeps_throw | apply keeps_ret]. Qed.

Lemma keeps_loadModel modelName type : keeps_loadable E (loadModel E modelName type).
Proof.
  intros w Hw.
  destruct (loadModel E modelName type w) as [[e | c] w1] eqn:Hload; simpl.
  - apply loadModel_throws in Hload as (Hmap & _).
    intros q c Hget. rewrite Hmap in Hget. exact (Hw q c Hget).
  - apply loadModel_ok in Hload as (_ & _ & Hmap & Hcase).
    intros q c' Hget. rewrite Hmap in Hget.
    destruct (decide (modelPath E modelName type = q)) as [<- | Hne].
    + destruct (loadedModels w !! modelPath E modelName type) as [existing |] eqn:Hold.
      * exact (Hw _ _ Hold).
      * exact (proj1 Hcase).
    + rewrite lookup_insert_ne in Hget by exact Hne. exact (Hw q c' Hget).
Qed.

Create HintDb keeps.

Local Hint Resolve keeps_ret keeps_throw keeps_emit keeps_Date_now
  keeps_cache_get keeps_cache_has keeps_cache_delete keeps_settle
  keeps_loadModel : keeps.

Ltac keeps :=
  repeat first
    [ progress auto with keeps
    | apply keeps_try_catch
    | apply keeps_bind
    | apply keeps_for_of
    | match goal with
      | |- forall _, _ => intro
      | x : (_ * _)%type |- _ => destruct x
      | |- keeps_loadable _ (if ?b then _ else _) => destruct b
      | |- keeps_loadable _ (match ?x with _ => _ end) => destruct x
      end ].

Lemma keeps_findModelPath model_ dirs : keeps_loadable E (findModelPath E dirs model_).
Proof. induction dirs as [| dir rest IH]; simpl; keeps. Qed.

Lemma keeps_handleUnload req : keeps_loadable E (handleUnload E req).
Proof.
  unfold handleUnload, unload_catch, dispose.
  keeps; try apply keeps_findModelPath.
Qed.

Lemma keeps_handleLoad req : keeps_loadable E (handleLoad E req).
Proof. unfold handleLoad, load_catch. keeps. Qed.

Lemma keeps_unloadUnusedModels maxAgeMs :
  keeps_loadable E (unloadUnusedModels E maxAgeMs).
Proof.
  unfold unloadUnusedModels, cache_entries, dispose. keeps.
Qed.

Lemma keeps_route r : keeps_loadable E (route E r).
Proof.
  destruct r as [req | req | req]; simpl.
  - unfold handleEmbeddings, openai_catch, embed. keeps.
  - unfold handleRerank, openai_catch, rank. keeps.
  - unfold handleChatCompletion, openai_catch, acquireSession, stream_start,
      session_prompt, onTextChunk, createContext.
    keeps.
    intros w' Hw'. unfold bind, emit, settle, throw, ret. simpl.
    destruct (createContext_outcome E _); exact Hw'.
Qed.

Lemma reachable_loadable w : reachable E w -> cache_loadable E w.
Proof.
  induction 1 as [| r w _ IH | req w _ IH | req w _ IH | maxAgeMs w _ IH].
  - intros p c Hget. simpl in Hget. now rewrite lookup_empty in Hget.
  - now apply keeps_route.
  - now apply keeps_handleLoad.
  - now apply keeps_handleUnload.
  - now apply keeps_unloadUnusedModels.
Qed.

End LoadFailures.

Section LoadFailureStatus.

Variable E : Env.



End LoadFailureStatus.


(** The same on the other two routes. *)
Example missing_model_embeddings_rerank :
  fst (handleEmbeddings Demo.env
         {| emb_model := Some "does-not-exist"; emb_input := Some (InputString "a") |}
         initial) =
    inr (Json (ErrorBody
                 "Model '/srv/localLLM/models/embedding/does-not-exist.gguf' not found in models directory"
                 "invalid_request_error" (Some "model") (Some "model_not_found"))
              404) /\
  fst (handleRerank Demo.env
         {| rr_model := Some "does-not-exist"; rr_query := Some "q";
            rr_documents := Some ["a"] |}
         initial) =
    inr (Json (ErrorBody
                 "Model '/srv/localLLM/models/reranker/does-not-exist.gguf' not found in models directory"
                 "invalid_request_error" (Some "model") (Some "model_not_found"))
              404).
Proof. vm_compute. split; reflexivity. Qed.

(** ** Chat completions *)

Section Chat.

Variable E : Env.

(** The handler past its validation: the model is acquired, the clock is
    read for the session id, a context is created (the session map of the
    request is empty), and the prompt is run in one of the two modes. *)
Lemma chat_unfold req w :
  Js.truthy_field (chat_model req) = true ->
  no_messages (chat_messages req) = false ->
  let model_ := default "" (chat_model req) in
  let messages := default [] (chat_messages req) in
  handleChatCompletion E req w =
    match loadModel E model_ chat w with
    | (inl e, w1) => openai_catch e w1
    | (inr mc, w1) =>
        let sessionId := model_ +:+ "-" +:+ pretty (clock E (reads w1)) in
        match createContext E (model mc) (snd (Date_now E w1)) with
        | (inl e, w3) => openai_catch e w3
        | (inr sequence, w3) =>
            let session := session_for req mc sequence in
            if default false (chat_stream req) then
              try_catch
                (stream_start E session sessionId model_ (last_content messages)
                              (options_of req))
                openai_catch w3
            else
              try_catch
                (r <- session_prompt E session (last_content messages)
                                     (options_of req)
                                     (fun _ (s : unit) => ret s) tt ;;
                 match fst r with
                 | inl error => throw error
                 | inr response =>
                     created <- Date_now E ;;
                     ret (Json (ChatCompletionBody sessionId (created / 1000)
                                                   model_ response) 200)
                 end)
                openai_catch w3
        end
    end.
Proof.
  intros Hm Hmsgs model_ messages.
  unfold handleChatCompletion. rewrite Hm, Hmsgs. cbn [negb orb].
  fold model_ messages.
  unfold try_catch at 1. unfold bind at 1.
  destruct (loadModel E model_ chat w) as [[e | mc] w1]; [reflexivity |].
  unfold bind at 1. unfold Date_now at 1. cbn [fst snd].
  unfold bind at 1. unfold acquireSession at 1. rewrite lookup_empty.
  unfold bind at 1.
  change (snd (Date_now E w1))
    with {| loadedModels := loadedModels w1; reads := S (reads w1);
            trace := trace w1 |}.
  destruct (createContext E (model mc) _) as [[e | sequence] w3]; [reflexivity |].
  unfold ret at 1. cbn [fst snd].
  fold (options_of req). fold messages. fold (session_for req mc sequence).
  destruct (default false (chat_stream req)); reflexivity.
Qed.

(** The prompt of the non-streaming branch has no callback. *)
Lemma for_of_no_callback (tokens : list string) w :
  for_of tokens (fun _ (s : unit) => ret s) tt w = (inr tt, w).
Proof. induction tokens as [| t rest IH]; [reflexivity | exact IH]. Qed.

Lemma delta_contents_snoc queue c :
  delta_contents (queue ++ [FrameChunk c]) = delta_contents queue ++ [delta_content c].
Proof. unfold delta_contents. rewrite flat_map_app. reflexivity. Qed.

Lemma concat_snoc l s : Js.concat (l ++ [s]) = Js.concat l +:+ s.
Proof. rewrite concat_app. unfold Js.concat at 2. simpl. now rewrite append_empty_r. Qed.

(** The callback of the streaming branch: what has been enqueued, followed
    by what is still in the buffer, is the text received so far. *)
Lemma for_of_onTextChunk sessionId model_ : forall tokens buffer queue w,
  exists buffer' queue' n,
    for_of tokens (onTextChunk E sessionId model_) (buffer, queue) w =
      (inr (buffer', queue'),
       {| loadedModels := loadedModels w; reads := (reads w + n)%nat;
          trace := trace w |}) /\
    Js.concat (delta_contents queue') +:+ buffer' =
      (Js.concat (delta_contents queue) +:+ buffer) +:+ Js.concat tokens /\
    (FrameDone ∉ queue -> FrameDone ∉ queue').
Proof.
  induction tokens as [| token rest IH]; intros buffer queue w.
  - exists buffer, queue, 0%nat. simpl. unfold ret.
    rewrite Nat.add_0_r. split; [now destruct w |].
    split; [unfold Js.concat; simpl; now rewrite append_empty_r | auto].
  - simpl. unfold bind at 1. unfold onTextChunk at 1. cbn [fst snd].
    destruct (Js.includes (buffer +:+ token) " " || Js.includes (buffer +:+ token) Js.nl).
    + unfold bind at 1, Date_now at 1, ret at 1. cbn [fst snd].
      match goal with
      | |- context [for_of rest _ (?b, ?q) ?w1] =>
          destruct (IH b q w1) as (buffer' & queue' & n & Hloop & Htext & Hdone)
      end.
      exists buffer', queue', (S n). rewrite Hloop. cbn [loadedModels reads trace].
      split; [now replace (reads w + S n)%nat with (S (reads w) + n)%nat by lia |].
      split.
      * rewrite Htext, delta_contents_snoc, concat_snoc. cbn [delta_content].
        change (Js.concat (token :: rest)) with (token +:+ Js.concat rest).
        now rewrite append_empty_r, !append_assoc.
      * intros Hq. apply Hdone. intros Hin.
        apply elem_of_app in Hin as [Hin | Hin]; [now apply Hq |].
        apply list_elem_of_singleton in Hin. discriminate.
    + unfold ret at 1.
      destruct (IH (buffer +:+ token) queue w)
        as (buffer' & queue' & n & Hloop & Htext & Hdone).
      exists buffer', queue', n. rewrite Hloop.
      split; [reflexivity |]. split; [| exact Hdone].
      rewrite Htext.
      change (Js.concat (token :: rest)) with (token +:+ Js.concat rest).
      now rewrite !append_assoc.
Qed.

End Chat.

Section ChatProperties.

Variable E : Env.

Lemma session_prompt_no_callback session text options w :
  let produced :=
    generate E (modelPath_of (session_model session))
             (session_systemPrompt session) (session_history session)
             text options in
  session_prompt E session text options (fun _ (s : unit) => ret s) tt w =
    (inr (match snd produced with
          | Some e => inl e
          | None => inr (Js.concat (fst produced))
          end, tt),
     {| loadedModels := loadedModels w; reads := reads w;
        trace := trace w ++
                 [EvPrompt (session_model session) (session_sequence session)
                           (session_systemPrompt session) text options] |}).
Proof.
  intros produced. unfold session_prompt. fold produced.
  unfold bind at 1, emit at 1. cbn [fst snd].
  unfold bind at 1. rewrite for_of_no_callback.
  destruct (snd produced); reflexivity.
Qed.

(** The stream: when the engine fails the stream is errored; otherwise it is
    closed after a [DONE] frame, and the chunks before it carry the text the
    engine produced, no more and no less. *)
Lemma stream_start_spec session sessionId model_ text options w :
  let produced :=
    generate E (modelPath_of (session_model session))
             (session_systemPrompt session) (session_history session)
             text options in
  exists resp n,
    stream_start E session sessionId model_ text options w =
      (inr resp,
       {| loadedModels := loadedModels w; reads := (reads w + n)%nat;
          trace := trace w ++
                   [EvPrompt (session_model session) (session_sequence session)
                             (session_systemPrompt session) text options] |}) /\
    match snd produced with
    | Some e => exists queue, resp = EventStream queue (Errored e)
    | None =>
        exists frames,
          resp = EventStream (frames ++ [FrameDone]) Closed /\
          (FrameDone ∉ frames) /\
          Js.concat (delta_contents frames) = Js.concat (fst produced)
    end.
Proof.
  intros produced. unfold stream_start, session_prompt. fold produced.
  unfold bind at 1. unfold bind at 1, emit at 1. cbn [fst snd].
  unfold bind at 1.
  match goal with
  | |- context [for_of (fst produced) _ (?b, ?q) ?w1] =>
      destruct (for_of_onTextChunk E sessionId model_ (fst produced) b q w1)
        as (buffer & queue & n & Hloop & Htext & Hdone)
  end.
  rewrite Hloop. cbn [loadedModels reads trace].
  destruct (snd produced) as [e |].
  - unfold ret. cbn [fst snd]. eexists _, n. split; [reflexivity | eauto].
  - unfold ret at 1. cbn [fst snd].
    assert (Hempty : FrameDone ∉ (@nil Frame)) by apply not_elem_of_nil.
    specialize (Hdone Hempty).
    unfold delta_contents at 2 in Htext. simpl in Htext.
    unfold Js.concat at 2 in Htext. simpl in Htext.
    rewrite !append_empty_l in Htext.
    destruct (Js.truthy buffer) eqn:Hbuffer.
    + unfold bind at 1. unfold bind at 1, Date_now at 1, ret. cbn [fst snd].
      eexists _, (S n). split.
      * now replace (reads w + S n)%nat with (S (reads w + n)) by lia.
      * eexists. split; [reflexivity |]. split.
        -- intros Hin. apply elem_of_app in Hin as [Hin | Hin]; [now apply Hdone |].
           apply list_elem_of_singleton in Hin. discriminate.
        -- now rewrite delta_contents_snoc, concat_snoc.
    + unfold bind at 1, ret. cbn [fst snd].
      eexists _, n. split; [reflexivity |].
      exists queue. split; [reflexivity |]. split; [exact Hdone |].
      destruct buffer; [| discriminate]. now rewrite append_empty_r in Htext.
Qed.

Lemma chat_invalid req w :
  Js.truthy_field (chat_model req) && negb (no_messages (chat_messages req)) = false ->
  exists param,
    handleChatCompletion E req w =
      (inr (invalid_request "Missing required parameters: model, messages (array)"
                            param), w).
Proof.
  intros Hinvalid. unfold handleChatCompletion, try_catch.
  destruct (Js.truthy_field (chat_model req)); simpl in *.
  - rewrite negb_false_iff in Hinvalid. rewrite Hinvalid. eexists. reflexivity.
  - eexists. reflexivity.
Qed.

(** C5: when the non-streaming request is answered with a completion, the
    same request with [stream] set, served from the same state, is answered
    with a stream that is closed after its [DONE] frame, and the
    [delta.content] fields of the chunks before that frame, put end to end,
    are the [message.content] of the completion. *)
Theorem streamed_text_equals_response req w sessionId created model_ content :
  fst (handleChatCompletion E (with_stream req false) w) =
    inr (Json (ChatCompletionBody sessionId created model_ content) 200) ->
  exists frames,
    fst (handleChatCompletion E (with_stream req true) w) =
      inr (EventStream (frames ++ [FrameDone]) Closed) /\
    (FrameDone ∉ frames) /\
    Js.concat (delta_contents frames) = content.
Proof.
  intros Hplain.
  destruct (Js.truthy_field (chat_model req)
            && negb (no_messages (chat_messages req))) eqn:Hvalid.
  2:{ destruct (chat_invalid (with_stream req false) w Hvalid) as [param Hbad].
      rewrite Hbad in Hplain. discriminate. }
  apply andb_true_iff in Hvalid as [Hm Hmsgs]. apply negb_true_iff in Hmsgs.
  rewrite (chat_unfold E (with_stream req false) w Hm Hmsgs) in Hplain.
  rewrite (chat_unfold E (with_stream req true) w Hm Hmsgs).
  cbn [with_stream chat_model chat_messages chat_stream default from_option id]
    in *.
  destruct (loadModel E _ chat w) as [[e | mc] w1].
  { unfold openai_catch in Hplain. destruct (is_ENOENT e); discriminate. }
  destruct (createContext E (model mc) _) as [[e | sequence] w3].
  { unfold openai_catch in Hplain. destruct (is_ENOENT e); discriminate. }
  change (session_for (with_stream req true) mc sequence)
    with (session_for (with_stream req false) mc sequence).
  change (options_of (with_stream req true))
    with (options_of (with_stream req false)).
  set (session := session_for (with_stream req false) mc sequence) in *.
  set (options := options_of (with_stream req false)) in *.
  set (text := last_content _) in *.
  unfold try_catch in *. unfold bind at 1 in Hplain.
  rewrite session_prompt_no_callback in Hplain. cbn [fst snd] in Hplain.
  match goal with
  | |- context [stream_start E session ?sid ?m text options w3] =>
      destruct (stream_start_spec session sid m text options w3)
        as (resp & n & Hstream & Hresp)
  end.
  rewrite Hstream. cbn [fst snd].
  destruct (snd (generate E _ _ _ text options)) as [e |].
  { unfold throw, openai_catch in Hplain. destruct (is_ENOENT e); discriminate. }
  destruct Hresp as (frames & -> & Hdone & Htext).
  unfold bind, Date_now, ret in Hplain. cbn [fst snd] in Hplain.
  injection Hplain as _ _ _ <-.
  exists frames. auto.
Qed.

(** The other way round: a stream that closes carries the content the
    non-streaming request is answered with. *)
Lemma response_equals_streamed_text req w frames :
  fst (handleChatCompletion E (with_stream req true) w) =
    inr (EventStream frames Closed) ->
  exists sessionId created model_,
    fst (handleChatCompletion E (with_stream req false) w) =
      inr (Json (ChatCompletionBody sessionId created model_
                                    (Js.concat (delta_contents frames))) 200).
Proof.
  intros Hstreamed.
  destruct (Js.truthy_field (chat_model req)
            && negb (no_messages (chat_messages req))) eqn:Hvalid.
  2:{ destruct (chat_invalid (with_stream req true) w Hvalid) as [param Hbad].
      rewrite Hbad in Hstreamed. discriminate. }
  apply andb_true_iff in Hvalid as [Hm Hmsgs]. apply negb_true_iff in Hmsgs.
  rewrite (chat_unfold E (with_stream req true) w Hm Hmsgs) in Hstreamed.
  rewrite (chat_unfold E (with_stream req false) w Hm Hmsgs).
  cbn [with_stream chat_model chat_messages chat_stream default from_option id]
    in *.
  destruct (loadModel E _ chat w) as [[e | mc] w1].
  { unfold openai_catch in Hstreamed. destruct (is_ENOENT e); discriminate. }
  destruct (createContext E (model mc) _) as [[e | sequence] w3].
  { unfold openai_catch in Hstreamed. destruct (is_ENOENT e); discriminate. }
  change (session_for (with_stream req true) mc sequence)
    with (session_for (with_stream req false) mc sequence) in Hstreamed.
  change (options_of (with_stream req true))
    with (options_of (with_stream req false)) in Hstreamed.
  set (session := session_for (with_stream req false) mc sequence) in *.
  set (options := options_of (with_stream req false)) in *.
  set (text := last_content _) in *.
  unfold try_catch in *. unfold bind at 1.
  rewrite session_prompt_no_callback. cbn [fst snd].
  match type of Hstreamed with
  | context [stream_start E session ?sid ?m text options w3] =>
      destruct (stream_start_spec session sid m text options w3)
        as (resp & n & Hstream & Hresp)
  end.
  rewrite Hstream in Hstreamed. cbn [fst snd] in Hstreamed.
  injection Hstreamed as ->.
  destruct (snd (generate E _ _ _ text options)) as [e |].
  { destruct Hresp as (queue & [=]). }
  destruct Hresp as (frames' & [= ->] & _ & Htext).
  assert (Hall : delta_contents (frames' ++ [FrameDone]) = delta_contents frames').
  { unfold delta_contents. rewrite flat_map_app. simpl. now rewrite app_nil_r. }
  rewrite Hall, Htext.
  unfold bind, Date_now, ret. cbn [fst snd].
  eexists _, _, _. reflexivity.
Qed.

End ChatProperties.

Lemma streamed_text_equals_response_witness :
  let req := {| chat_model := Some "m";
                chat_messages := Some [{| role := "user"; content := "hi" |}];
                chat_temperature := None; chat_max_tokens := None;
                chat_stream := None |} in
  fst (handleChatCompletion Demo.env (with_stream req false) initial) =
    inr (Json (ChatCompletionBody "m-1700000000001" 1700000000 "m" "Hello world!")
              200) /\
  exists frames,
    fst (handleChatCompletion Demo.env (with_stream req true) initial) =
      inr (EventStream (frames ++ [FrameDone]) Closed) /\
    (FrameDone ∉ frames) /\
    Js.concat (delta_contents frames) = "Hello world!".
Proof.
  intros req.
  assert (H : fst (handleChatCompletion Demo.env (with_stream req false) initial) =
    inr (Json (ChatCompletionBody "m-1700000000001" 1700000000 "m" "Hello world!")
              200)) by (vm_compute; reflexivity).
  split; [exact H |].
  exact (streamed_text_equals_response Demo.env req initial _ _ _ _ H).
Defined.

Section ChatEngineCalls.

Variable E : Env.

Lemma loadModel_chat_trace modelName w :
  exists loads,
    trace (snd (loadModel E modelName chat w)) = trace w ++ loads /\
    forallb is_load loads = true.
Proof.
  unfold loadModel, llama_loadModel, bind, cache_get, cache_set, Date_now, emit,
    settle, throw, ret.
  cbn [fst snd].
  destruct (loadedModels w !! modelPath E modelName chat).
  - exists []. cbn [snd trace]. now rewrite app_nil_r.
  - destruct (loadModel_outcome E (modelPath E modelName chat));
      eexists [_]; split; reflexivity.
Qed.

(** What a chat request with its required parameters asks of the engine:
    at most a load, then a new context, then one prompt, whose system prompt
    and text are computed from the messages. *)
Lemma chat_trace req w :
  Js.truthy_field (chat_model req) = true ->
  no_messages (chat_messages req) = false ->
  let r := handleChatCompletion E req w in
  let messages := default [] (chat_messages req) in
  exists loads rest,
    trace (snd r) = trace w ++ loads ++ rest /\
    forallb is_load loads = true /\
    ((chat_succeeded (fst r) = false /\
      (rest = [] \/ exists m, rest = [EvCreateContext m])) \/
     exists m sequence,
       rest = [EvCreateContext m;
               EvPrompt m sequence (systemPrompt_of messages)
                        (last_content messages) (options_of req)]).
Proof.
  intros Hm Hmsgs r messages. subst r.
  rewrite (chat_unfold E req w Hm Hmsgs). cbn zeta. fold messages.
  destruct (loadModel_chat_trace (default "" (chat_model req)) w)
    as (loads & Htrace & Hloads).
  destruct (loadModel E (default "" (chat_model req)) chat w) as [[e | mc] w1].
  { exists loads, []. rewrite app_nil_r. cbn [snd] in Htrace.
    unfold openai_catch.
    destruct (is_ENOENT e); cbn [fst snd ret];
      (split; [exact Htrace | split; [exact Hloads | left; split; auto]]). }
  cbn [snd] in Htrace.
  unfold createContext, bind, emit, settle, Date_now. cbn [fst snd].
  destruct (createContext_outcome E (modelPath_of (model mc))) as [e |].
  { exists loads, [EvCreateContext (model mc)].
    unfold throw, openai_catch. destruct (is_ENOENT e); cbn [fst snd ret trace];
      rewrite Htrace, <- app_assoc; split; try reflexivity; split; eauto. }
  unfold ret at 1. cbn [fst snd trace].
  set (session := session_for req mc (length (trace w1))).
  exists loads,
    [EvCreateContext (model mc);
     EvPrompt (model mc) (length (trace w1)) (systemPrompt_of messages)
              (last_content messages) (options_of req)].
  split; [| split; [exact Hloads | right; eauto]].
  destruct (default false (chat_stream req)).
  - unfold try_catch.
    match goal with
    | |- context [stream_start E session ?sid ?m ?text ?options ?w3] =>
        destruct (stream_start_spec E session sid m text options w3)
          as (resp & n & Hstream & _)
    end.
    rewrite Hstream. subst session.
    cbn [fst snd trace session_for session_model session_sequence
         session_systemPrompt].
    fold messages. rewrite Htrace, <- !app_assoc. reflexivity.
  - unfold try_catch.
    rewrite session_prompt_no_callback. subst session.
    cbn [fst snd trace session_for session_model session_sequence
         session_systemPrompt session_history].
    fold messages.
    destruct (snd (generate E _ _ _ _ _)) as [e |].
    + unfold throw, openai_catch. destruct (is_ENOENT e); cbn [fst snd ret trace];
        rewrite Htrace, <- !app_assoc; reflexivity.
    + unfold ret. cbn [fst snd trace].
      rewrite Htrace, <- !app_assoc. reflexivity.
Qed.

Lemma filter_loads_createContext loads :
  forallb is_load loads = true -> List.filter is_createContext loads = [].
Proof.
  induction loads as [| ev rest IH]; [reflexivity |]. simpl.
  intros Hall. apply andb_true_iff in Hall as [Hev Hrest].
  destruct ev; try discriminate. simpl. auto.
Qed.

(** Every chat request that is answered with a completion or a stream has
    created a context of its own: the session map it looks into is the one
    it has just made. *)
Lemma chat_always_creates_context req w :
  let r := handleChatCompletion E req w in
  chat_succeeded (fst r) = true ->
  contexts_created (snd r) = S (contexts_created w).
Proof.
  intros r Hok. subst r.
  destruct (Js.truthy_field (chat_model req)
            && negb (no_messages (chat_messages req))) eqn:Hvalid.
  2:{ destruct (chat_invalid E req w Hvalid) as [param Hbad].
      rewrite Hbad in Hok. discriminate. }
  apply andb_true_iff in Hvalid as [Hm Hmsgs]. apply negb_true_iff in Hmsgs.
  destruct (chat_trace req w Hm Hmsgs)
    as (loads & rest & Htrace & Hloads & [[Hfail _] | (m & sequence & ->)]).
  { rewrite Hok in Hfail. discriminate. }
  unfold contexts_created. rewrite Htrace, !List.filter_app, !length_app.
  rewrite (filter_loads_createContext loads Hloads). simpl. lia.
Qed.





End ChatEngineCalls.


(** C2, where the code departs from it: two requests for the same model
    whose session ids are read from the clock in the same millisecond get
    the same session id, and the second is served from the state the first
    has left.  The model is loaded once, but the second request finds its
    own, empty session map, creates a second context and prompts on that
    one. *)
Theorem second_chat_request_builds_new_context :
  let req := {| chat_model := Some "m";
                chat_messages := Some [{| role := "user"; content := "hi" |}];
                chat_temperature := None; chat_max_tokens := None;
                chat_stream := None |} in
  let first := handleChatCompletion Demo.frozen req initial in
  let second := handleChatCompletion Demo.frozen req (snd first) in
  (exists created content,
     fst first = inr (Json (ChatCompletionBody "m-1700000000000" created "m" content) 200) /\
     fst second = inr (Json (ChatCompletionBody "m-1700000000000" created "m" content) 200)) /\
  loads_of "/srv/localLLM/models/chat/m.gguf" (snd second) = 1%nat /\
  contexts_created (snd first) = 1%nat /\
  contexts_created (snd second) = 2%nat /\
  exists m options,
    chat_request_events Demo.frozen req initial =
      [EvLoad "/srv/localLLM/models/chat/m.gguf"; EvCreateContext m;
       EvPrompt m 1 "" "hi" options] /\
    chat_request_events Demo.frozen req (snd first) =
      [EvCreateContext m; EvPrompt m 3 "" "hi" options].
Proof.
  vm_compute.
  split; [eexists _, _; split; reflexivity |].
  repeat (split; [reflexivity |]).
  eexists _, _. split; reflexivity.
Qed.

(** ** Worked examples *)

Example endsWith_extension :
  Js.endsWith "m.gguf" ".gguf" = true /\
  Js.endsWith "m" ".gguf" = false /\
  Js.endsWith "gguf" ".gguf" = false /\
  Js.endsWith "m.gguf.bak" ".gguf" = false.
Proof. repeat split; reflexivity. Qed.

Example includes_space :
  Js.includes "Hello wor" " " = true /\
  Js.includes "Hello" " " = false /\
  Js.includes ("ld" +:+ Js.nl) Js.nl = true /\
  Js.includes "" "" = true.
Proof. repeat split; reflexivity. Qed.

Example modelPath_demo :
  modelPath Demo.env "m" embedding = "/srv/localLLM/models/embedding/m.gguf" /\
  modelPath Demo.env "m.gguf" embedding = "/srv/localLLM/models/embedding/m.gguf".
Proof. split; reflexivity. Qed.

(** A name cached in two categories: unloading it removes the entry of the
    first directory in the order embedding, reranker, chat. *)
Example unload_first_match :
  let w1 := snd (loadModel Demo.env "m" chat initial) in
  let w2 := snd (loadModel Demo.env "m" embedding w1) in
  let r := handleUnload Demo.env {| ul_model := Some "m" |} w2 in
  fst r = inr (Json (MessageBody "Model unloaded successfully") 200) /\
  loadedModels (snd r) !! "/srv/localLLM/models/embedding/m.gguf" = None /\
  is_Some (loadedModels (snd r) !! "/srv/localLLM/models/chat/m.gguf").
Proof. vm_compute. repeat split; eauto. Qed.

(** Unloading twice: the second request is answered with 404. *)
Example unload_twice :
  let w1 := snd (loadModel Demo.env "m" chat initial) in
  let w2 := snd (handleUnload Demo.env {| ul_model := Some "m" |} w1) in
  fst (handleUnload Demo.env {| ul_model := Some "m" |} w2) =
    inr (Json (FlatErrorBody "Model not found or not loaded") 404).
Proof. vm_compute. reflexivity. Qed.

(** An entry stamped one millisecond before the sweep: it goes when the
    threshold is 0 and stays when the threshold is 1. *)
Example sweep_threshold :
  let w1 := snd (loadModel Demo.env "m" chat initial) in
  loadedModels (snd (unloadUnusedModels Demo.env (Some 0) w1))
    !! "/srv/localLLM/models/chat/m.gguf" = None /\
  is_Some (loadedModels (snd (unloadUnusedModels Demo.env (Some 1) w1))
             !! "/srv/localLLM/models/chat/m.gguf") /\
  is_Some (loadedModels (snd (unloadUnusedModels Demo.env None w1))
             !! "/srv/localLLM/models/chat/m.gguf").
Proof. vm_compute. repeat split; eauto. Qed.

(** The stream of the chunks [Hel], [lo], [ wor], [ld], [!]: the buffer is
    flushed when it first holds a space, and what is left goes out with the
    finish reason. *)
Example stream_frames :
  let req := {| chat_model := Some "m";
                chat_messages := Some [{| role := "user"; content := "hi" |}];
                chat_temperature := None; chat_max_tokens := None;
                chat_stream := Some true |} in
  exists c1 c2,
    fst (handleChatCompletion Demo.env req initial) =
      inr (EventStream [FrameChunk c1; FrameChunk c2; FrameDone] Closed) /\
    delta_content c1 = "Hello wor" /\ chunk_finish_reason c1 = None /\
    delta_content c2 = "ld!" /\ chunk_finish_reason c2 = Some "stop".
Proof. vm_compute. eexists _, _. repeat split; reflexivity. Qed.

(** A single string is embedded as a list of one input; an empty string is
    refused as a missing parameter. *)
Example embeddings_single_string :
  fst (handleEmbeddings Demo.env
         {| emb_model := Some "m"; emb_input := Some (InputString "abc") |}
         initial) =
    inr (Json (EmbeddingsBody [{| ei_embedding := [3%Q]; ei_index := 0 |}] "m") 200) /\
  fst (handleEmbeddings Demo.env
         {| emb_model := Some "m"; emb_input := Some (InputString "") |}
         initial) =
    inr (invalid_request "Missing required parameters: model, input" "input").
Proof. vm_compute. split; reflexivity. Qed.

(** * Further properties *)

(** ** Requests that fail validation *)

(** X1: a request to one of the three OpenAI-style routes that lacks a
    required parameter is answered 400 with an [invalid_request_error], and
    nothing else happens: the map, the clock and the engine are not touched.
    When the model name is what is missing, [param] says so. *)
Theorem invalid_request_touches_nothing (E : Env) (r : OpenAIRequest) (w : World) :
  has_required_parameters r = false ->
  snd (route E r w) = w /\
  exists message param,
    fst (route E r w) =
      inr (Json (ErrorBody message "invalid_request_error" (Some param) None) 400) /\
    (Js.truthy (requested_model r) = false -> param = "model").
Proof.
  intros Hinvalid. destruct r as [req | req | req]; simpl in *.
  - unfold handleEmbeddings, try_catch, invalid_request.
    destruct (emb_model req) as [[| a s] |]; simpl in *;
      try (split; [reflexivity | eexists _, _; split; [reflexivity | auto]]).
    rewrite Hinvalid. simpl.
    split; [reflexivity | eexists _, _; split; [reflexivity | discriminate]].
  - unfold handleRerank, try_catch, invalid_request.
    destruct (rr_model req) as [[| a s] |]; simpl in *;
      try (split; [reflexivity | eexists _, _; split; [reflexivity | auto]]).
    destruct (Js.truthy_field (rr_query req)); simpl in *.
    + rewrite Hinvalid. simpl.
      split; [reflexivity | eexists _, _; split; [reflexivity | discriminate]].
    + split; [reflexivity | eexists _, _; split; [reflexivity | discriminate]].
  - destruct (chat_invalid E req w Hinvalid) as [param Hbad].
    rewrite Hbad. split; [reflexivity |].
    unfold handleChatCompletion, try_catch, invalid_request in Hbad.
    destruct (chat_model req) as [[| a s] |]; simpl in *.
    + injection Hbad as <-. eexists _, _. split; [reflexivity | auto].
    + rewrite negb_false_iff in Hinvalid. rewrite Hinvalid in Hbad.
      injection Hbad as <-. eexists _, _. split; [reflexivity | discriminate].
    + injection Hbad as <-. eexists _, _. split; [reflexivity | auto].
Qed.

(** An embeddings request whose input is the empty string. *)
Lemma invalid_request_touches_nothing_witness :
  let r := PostEmbeddings {| emb_model := Some "m";
                             emb_input := Some (InputString "") |} in
  has_required_parameters r = false /\
  snd (route Demo.env r initial) = initial.
Proof.
  intros r. split; [reflexivity |].
  exact (proj1 (invalid_request_touches_nothing Demo.env r initial eq_refl)).
Defined.

(** ** Names and paths *)

Lemma length_append (a b : string) :
  String.length (a +:+ b) = (String.length a + String.length b)%nat.
Proof.
  induction a as [| x a IH]; [reflexivity |].
  rewrite append_cons. simpl. now rewrite IH.
Qed.

Lemma substring_whole (s : string) : substring 0 (String.length s) s = s.
Proof. induction s as [| x s IH]; [reflexivity | simpl; now rewrite IH]. Qed.

Lemma substring_skip (a b : string) (n : nat) :
  substring (String.length a) n (a +:+ b) = substring 0 n b.
Proof.
  induction a as [| x a IH]; [reflexivity |].
  rewrite append_cons. simpl. exact IH.
Qed.

Lemma endsWith_append (a suffix : string) : Js.endsWith (a +:+ suffix) suffix = true.
Proof.
  unfold Js.endsWith. rewrite length_append.
  destruct (Nat.leb_spec (String.length suffix)
              (String.length a + String.length suffix)) as [_ | Hlt]; [| lia].
  replace (String.length a + String.length suffix - String.length suffix)%nat
    with (String.length a) by lia.
  rewrite substring_skip, substring_whole. apply String.eqb_refl.
Qed.

(** The file name of a model always carries the extension, and spelling the
    extension out changes nothing. *)
Lemma modelFileName_extension (modelName : string) :
  Js.endsWith (modelFileName modelName) ".gguf" = true /\
  modelFileName (modelFileName modelName) = modelFileName modelName.
Proof.
  assert (H : Js.endsWith (modelFileName modelName) ".gguf" = true).
  { unfold modelFileName.
    destruct (Js.endsWith modelName ".gguf") eqn:Hends;
      [exact Hends | apply endsWith_append]. }
  split; [exact H |]. unfold modelFileName at 1. now rewrite H.
Qed.

(** X2: a model acquired under a name is the entry hit by the same name
    with the extension spelled out, and the other way round: the second call
    asks nothing of the engine and returns the entry of the first with a new
    time stamp. *)
Theorem loadModel_either_spelling (E : Env) modelName type w c w1 :
  (loadModel E modelName type w = (inr c, w1) ->
   exists w2,
     loadModel E (modelFileName modelName) type w1 =
       (inr (set_lastUsed (clock E (reads w1)) c), w2) /\
     trace w2 = trace w1) /\
  (loadModel E (modelFileName modelName) type w = (inr c, w1) ->
   exists w2,
     loadModel E modelName type w1 =
       (inr (set_lastUsed (clock E (reads w1)) c), w2) /\
     trace w2 = trace w1).
Proof.
  assert (Hpath : modelPath E (modelFileName modelName) type =
                  modelPath E modelName type).
  { unfold modelPath. now rewrite (proj2 (modelFileName_extension modelName)). }
  split; intros Hok.
  - apply loadModel_ok in Hok as (_ & _ & Hmap & _).
    assert (Hhit : loadedModels w1 !! modelPath E (modelFileName modelName) type
                   = Some c)
      by (rewrite Hpath, Hmap; apply lookup_insert_eq).
    rewrite (loadModel_hit E _ type w1 c Hhit). eexists. split; reflexivity.
  - apply loadModel_ok in Hok as (_ & _ & Hmap & _).
    assert (Hhit : loadedModels w1 !! modelPath E modelName type = Some c)
      by (rewrite <- Hpath, Hmap; apply lookup_insert_eq).
    rewrite (loadModel_hit E _ type w1 c Hhit). eexists. split; reflexivity.
Qed.

Lemma loadModel_either_spelling_witness :
  exists c w1 w2,
    loadModel Demo.env "m" chat initial = (inr c, w1) /\
    loadModel Demo.env "m.gguf" chat w1 =
      (inr (set_lastUsed (clock Demo.env (reads w1)) c), w2) /\
    trace w2 = trace w1.
Proof.
  destruct (loadModel Demo.env "m" chat initial) as [[e | c] w1] eqn:Hfirst;
    [vm_compute in Hfirst; discriminate |].
  destruct (proj1 (loadModel_either_spelling Demo.env "m" chat initial c w1) Hfirst)
    as (w2 & Hsecond & Htrace).
  exists c, w1, w2. split; [reflexivity |]. split; [exact Hsecond | exact Htrace].
Defined.

(** ** The context of a category *)

Lemma loadModel_miss_contexts (E : Env) modelName type w c w1 :
  loadedModels w !! modelPath E modelName type = None ->
  loadModel E modelName type w = (inr c, w1) ->
  embeddingContext c = (if decide (type = embedding) then Some (model c) else None) /\
  rankingContext c = (if decide (type = reranker) then Some (model c) else None).
Proof.
  intros Hget.
  unfold loadModel, llama_loadModel, createEmbeddingContext, createRankingContext,
    bind, ret, throw, settle, cache_get, cache_set, emit, Date_now.
  simpl. rewrite Hget.
  destruct (loadModel_outcome E (modelPath E modelName type)); simpl;
    [discriminate |].
  destruct type; simpl.
  - destruct (createEmbeddingContext_outcome E _); simpl; [discriminate |].
    intros [= <- <-]. split; reflexivity.
  - destruct (createRankingContext_outcome E _); simpl; [discriminate |].
    intros [= <- <-]. split; reflexivity.
  - intros [= <- <-]. split; reflexivity.
Qed.

(** X3: a model that had to be loaded gets the context of the category it
    was asked for and no other: an embedding context for [embedding], a
    ranking context for [reranker], none for [chat]; the context is a
    context of the model just loaded, which is a model of the resolved
    path. *)
Theorem loadModel_fresh_context_kind (E : Env) modelName type w c w1 :
  loadedModels w !! modelPath E modelName type = None ->
  loadModel E modelName type w = (inr c, w1) ->
  modelPath_of (model c) = modelPath E modelName type /\
  embeddingContext c = (if decide (type = embedding) then Some (model c) else None) /\
  rankingContext c = (if decide (type = reranker) then Some (model c) else None).
Proof.
  intros Hget Hok. split.
  - apply loadModel_ok in Hok as (_ & _ & _ & Hcase).
    rewrite Hget in Hcase. destruct Hcase as (_ & -> & _). reflexivity.
  - exact (loadModel_miss_contexts E modelName type w c w1 Hget Hok).
Qed.

Lemma loadModel_fresh_context_kind_witness :
  exists c w1,
    loadedModels initial !! modelPath Demo.env "m" reranker = None /\
    loadModel Demo.env "m" reranker initial = (inr c, w1) /\
    embeddingContext c = None /\
    rankingContext c = Some (model c).
Proof.
  destruct (loadModel Demo.env "m" reranker initial) as [[e | c] w1] eqn:Hload;
    [vm_compute in Hload; discriminate |].
  exists c, w1. split; [reflexivity |]. split; [reflexivity |].
  exact (proj2 (loadModel_fresh_context_kind Demo.env "m" reranker initial c w1
                  eq_refl Hload)).
Defined.

(** X4: the answers "Model is not suitable for embeddings" and "Model is not
    suitable for reranking" are only given for a model that was already in
    the map, under the path the request resolves to, without the context
    the route needs; the engine is not asked anything for such a request. *)
Theorem unsuitable_model_was_cached (E : Env) (w : World) :
  (forall req,
     fst (handleEmbeddings E req w) =
       inr (invalid_request "Model is not suitable for embeddings" "model") ->
     (exists existing,
        loadedModels w !! modelPath E (default "" (emb_model req)) embedding
          = Some existing /\
        embeddingContext existing = None) /\
     trace (snd (handleEmbeddings E req w)) = trace w) /\
  (forall req,
     fst (handleRerank E req w) =
       inr (invalid_request "Model is not suitable for reranking" "model") ->
     (exists existing,
        loadedModels w !! modelPath E (default "" (rr_model req)) reranker
          = Some existing /\
        rankingContext existing = None) /\
     trace (snd (handleRerank E req w)) = trace w).
Proof.
  split; intros req Hresp.
  - unfold handleEmbeddings, try_catch, openai_catch, invalid_request in *.
    destruct (negb (Js.truthy_field (emb_model req))
              || negb (truthy_input (emb_input req))); [discriminate |].
    unfold bind at 1 in Hresp. unfold bind at 1.
    destruct (loadModel E (default "" (emb_model req)) embedding w)
      as [[e | mc] w1] eqn:Hload.
    { destruct (is_ENOENT e); discriminate. }
    destruct (embeddingContext mc) as [ctx |] eqn:Hctx.
    { unfold bind at 1 in Hresp.
      match type of Hresp with
      | context [for_of ?xs ?body [] w1] =>
          destruct (for_of xs body [] w1) as [[e | embeddings] w2]
      end; [destruct (is_ENOENT e) |]; discriminate. }
    destruct (loadedModels w !! modelPath E (default "" (emb_model req)) embedding)
      as [existing |] eqn:Hget.
    + pose proof (loadModel_ok E _ _ _ _ _ Hload) as (_ & _ & _ & Hcase).
      rewrite Hget in Hcase. destruct Hcase as [Htrace ->].
      split; [| exact Htrace]. exists existing. split; [reflexivity | exact Hctx].
    + destruct (loadModel_miss_contexts E _ _ _ _ _ Hget Hload) as [Hemb _].
      rewrite Hctx in Hemb. discriminate.
  - unfold handleRerank, try_catch, openai_catch, invalid_request in *.
    destruct (negb (Js.truthy_field (rr_model req))
              || negb (Js.truthy_field (rr_query req))
              || negb (isArray (rr_documents req))); [discriminate |].
    unfold bind at 1 in Hresp. unfold bind at 1.
    destruct (loadModel E (default "" (rr_model req)) reranker w)
      as [[e | mc] w1] eqn:Hload.
    { destruct (is_ENOENT e); discriminate. }
    destruct (rankingContext mc) as [ctx |] eqn:Hctx.
    { unfold bind at 1, rank at 1 in Hresp. unfold bind at 1, emit at 1 in Hresp.
      cbn [fst snd] in Hresp.
      destruct (rankAndSort E _ _ _) as [e | ranked];
        [unfold throw in Hresp; destruct (is_ENOENT e) |]; discriminate. }
    destruct (loadedModels w !! modelPath E (default "" (rr_model req)) reranker)
      as [existing |] eqn:Hget.
    + pose proof (loadModel_ok E _ _ _ _ _ Hload) as (_ & _ & _ & Hcase).
      rewrite Hget in Hcase. destruct Hcase as [Htrace ->].
      split; [| exact Htrace]. exists existing. split; [reflexivity | exact Hctx].
    + destruct (loadModel_miss_contexts E _ _ _ _ _ Hget Hload) as [_ Hrank].
      rewrite Hctx in Hrank. discriminate.
Qed.

(** A chat model, then an embeddings request that names it through the chat
    directory. *)
Lemma unsuitable_model_was_cached_witness :
  let w := snd (loadModel demo_dotdot "m" chat initial) in
  let req := {| emb_model := Some "../chat/m";
                emb_input := Some (InputString "a") |} in
  fst (handleEmbeddings demo_dotdot req w) =
    inr (invalid_request "Model is not suitable for embeddings" "model") /\
  trace (snd (handleEmbeddings demo_dotdot req w)) = trace w.
Proof.
  intros w req.
  assert (H : fst (handleEmbeddings demo_dotdot req w) =
    inr (invalid_request "Model is not suitable for embeddings" "model"))
    by (vm_compute; reflexivity).
  split; [exact H |].
  exact (proj2 (proj1 (unsuitable_model_was_cached demo_dotdot w) req H)).
Defined.

(** ** Embeddings that fail half way *)

Lemma embeddings_loop_fails (E : Env) ctx bad e post :
  getEmbeddingFor E (modelPath_of ctx) bad = inl e ->
  forall pre acc w,
    Forall (fun text => exists v, getEmbeddingFor E (modelPath_of ctx) text = inr v)
           pre ->
    for_of (pre ++ bad :: post)
      (fun text embeddings =>
         (vector <- embed E ctx text ;;
          ret (embeddings ++
               [{| ei_embedding := vector; ei_index := length embeddings |}]))%js)
      acc w =
    (inl e,
     {| loadedModels := loadedModels w; reads := reads w;
        trace := trace w ++ map (EvEmbed ctx) (pre ++ [bad]) |}).
Proof.
  intros Hbad. induction pre as [| text pre IH]; intros acc w Hpre.
  - simpl. unfold bind at 1. unfold embed, bind, emit, throw. cbn [fst snd].
    rewrite Hbad. reflexivity.
  - apply Forall_cons in Hpre as [[v Hv] Hpre].
    rewrite <- !app_comm_cons. cbn [for_of].
    unfold bind at 1. unfold bind at 1. unfold embed at 1.
    unfold bind at 1, emit at 1. cbn [fst snd]. rewrite Hv.
    unfold ret at 1. unfold ret at 1. cbn [fst snd].
    rewrite (IH _ _ Hpre). cbn [loadedModels reads trace map].
    now rewrite <- app_assoc.
Qed.

(** X5: when the engine fails on one of the inputs of an embeddings request,
    the handler stops there: the inputs after it are not embedded, the
    vectors already computed are not returned, the answer is the error
    response for the value thrown, and the model stays in the map. *)
Theorem embeddings_stop_at_first_failure (E : Env) req w mc w1 ctx pre bad post e :
  has_required_parameters (PostEmbeddings req) = true ->
  loadModel E (default "" (emb_model req)) embedding w = (inr mc, w1) ->
  embeddingContext mc = Some ctx ->
  inputs_of (emb_input req) = pre ++ bad :: post ->
  Forall (fun text => exists v, getEmbeddingFor E (modelPath_of ctx) text = inr v)
         pre ->
  getEmbeddingFor E (modelPath_of ctx) bad = inl e ->
  handleEmbeddings E req w =
    openai_catch e
      {| loadedModels := loadedModels w1; reads := reads w1;
         trace := trace w1 ++ map (EvEmbed ctx) (pre ++ [bad]) |}.
Proof.
  intros Hvalid Hload Hctx Hinputs Hpre Hbad.
  simpl in Hvalid. apply andb_true_iff in Hvalid as [Hm Hi].
  unfold handleEmbeddings, try_catch. rewrite Hm, Hi. cbn [negb orb].
  unfold bind at 1. rewrite Hload, Hctx.
  unfold bind at 1. rewrite Hinputs.
  rewrite (embeddings_loop_fails E ctx bad e post Hbad pre [] w1 Hpre).
  reflexivity.
Qed.

(** Three inputs, the second of which the engine cannot embed. *)
Lemma embeddings_stop_at_first_failure_witness :
  let req := {| emb_model := Some "m";
                emb_input := Some (InputArray ["a"; "boom"; "c"]) |} in
  exists mc w1 ctx body,
    loadModel demo_failing "m" embedding initial = (inr mc, w1) /\
    embeddingContext mc = Some ctx /\
    handleEmbeddings demo_failing req initial =
      (inr (Json body 500),
       {| loadedModels := loadedModels w1; reads := reads w1;
          trace := trace w1 ++ [EvEmbed ctx "a"; EvEmbed ctx "boom"] |}).
Proof.
  intros req.
  destruct (loadModel demo_failing "m" embedding initial) as [[e | mc] w1] eqn:Hload;
    [vm_compute in Hload; discriminate |].
  destruct (embeddingContext mc) as [ctx |] eqn:Hctx;
    [| vm_compute in Hload; injection Hload as <- <-; discriminate].
  exists mc, w1, ctx. eexists. split; [reflexivity |]. split; [exact Hctx |].
  rewrite (embeddings_stop_at_first_failure demo_failing req initial mc w1 ctx
             ["a"] "boom" ["c"]
             {| err_instanceofError := true; err_code := None;
                err_path := None; err_message := "cannot embed" |}
             eq_refl Hload Hctx eq_refl).
  - reflexivity.
  - constructor; [eexists; reflexivity | constructor].
  - reflexivity.
Defined.

(** ** POST /v1/models/load *)

(** X6: a load request whose [type] is not one of the three categories is
    answered 400 and nothing is touched; one that names an artifact that
    does not exist is answered 404 with a message that contains the resolved
    path, and the map is left as it was. *)
Theorem handleLoad_errors (E : Env) req w :
  Js.truthy_field (ld_model req) = true ->
  Js.truthy_field (ld_type req) = true ->
  (type_of_string (default "" (ld_type req)) = None ->
   handleLoad E req w =
     (inr (Json (FlatErrorBody
                   "Type must be either 'embedding', 'reranker', or 'chat'") 400),
      w)) /\
  (forall type,
     type_of_string (default "" (ld_type req)) = Some type ->
     reachable E w ->
     artifact_missing E (modelPath E (default "" (ld_model req)) type) ->
     exists message w',
       handleLoad E req w = (inr (Json (FlatErrorBody message) 404), w') /\
       Js.includes message (modelPath E (default "" (ld_model req)) type) = true /\
       loadedModels w' = loadedModels w).
Proof.
  intros Hm Ht. split.
  - intros Htype. unfold handleLoad, try_catch. rewrite Hm, Ht. cbn [negb orb].
    rewrite Htype. reflexivity.
  - intros type Htype Hreach (e & Hout & Hcode & Hpath).
    set (p := modelPath E (default "" (ld_model req)) type) in *.
    assert (Hget : loadedModels w !! p = None).
    { destruct (loadedModels w !! p) as [c |] eqn:Hget; [| reflexivity].
      apply (reachable_loadable E w Hreach) in Hget. congruence. }
    destruct (loadModel_rejected E _ _ w e Hget Hout) as (w1 & Hload & Hmap).
    unfold handleLoad, try_catch. rewrite Hm, Ht. cbn [negb orb].
    rewrite Htype. unfold bind at 1. rewrite Hload.
    unfold load_catch. rewrite Hcode. unfold ret.
    eexists _, w1. split; [reflexivity |]. split; [| exact Hmap].
    unfold not_found_message. rewrite Hpath. cbn [interpolate].
    apply includes_append.
Qed.

Lemma handleLoad_errors_witness :
  let req := {| ld_model := Some "does-not-exist"; ld_type := Some "chat" |} in
  exists message w',
    handleLoad Demo.env req initial = (inr (Json (FlatErrorBody message) 404), w') /\
    Js.includes message "/srv/localLLM/models/chat/does-not-exist.gguf" = true /\
    loadedModels w' = loadedModels initial.
Proof.
  intros req.
  apply (proj2 (handleLoad_errors Demo.env req initial eq_refl eq_refl) chat eq_refl
           (reachable_initial Demo.env)).
  eexists. repeat split; reflexivity.
Defined.

(** ** More on the idle sweep *)

Section SweepMore.

Variable E : Env.

(** The state a sweep leaves. *)
Lemma sweep_world (maxAgeMs : option Z) (w : World) :
  let maxIdle := default (30 * 60 * 1000) maxAgeMs in
  let now := clock E (reads w) in
  unloadUnusedModels E maxAgeMs w =
    (inr tt,
     {| loadedModels :=
          swept now maxIdle (map_to_list (loadedModels w)) (loadedModels w);
        reads := S (reads w);
        trace := trace w ++
                 map (fun entry => EvDispose (model (snd entry)))
                     (List.filter (stale now maxIdle)
                                  (map_to_list (loadedModels w))) |}).
Proof.
  intros maxIdle now. unfold unloadUnusedModels. fold maxIdle.
  unfold bind at 1, Date_now at 1. unfold bind at 1, cache_entries at 1.
  simpl. fold now. apply sweep_loop.
Qed.

Lemma swept_lookup_iff now maxIdle (m : gmap string ModelContext) p c :
  swept now maxIdle (map_to_list m) m !! p = Some c <->
  m !! p = Some c /\ now - lastUsed c <= maxIdle.
Proof.
  destruct (m !! p) as [c' |] eqn:Hget.
  - destruct (stale now maxIdle (p, c')) eqn:Hstale.
    + rewrite (swept_lookup_stale now maxIdle _ _ p c');
        [| now apply elem_of_map_to_list | exact Hstale].
      unfold stale in Hstale. simpl in Hstale. apply Z.gtb_lt in Hstale.
      split; [discriminate | intros [[= <-] Hle]; lia].
    + rewrite swept_lookup_fresh, Hget.
      * unfold stale in Hstale. simpl in Hstale.
        split; [intros [= <-]; split; [reflexivity |] | now intros [? _]].
        destruct (Z.gtb_spec (now - lastUsed c') maxIdle); [discriminate | lia].
      * intros c'' Hin. apply elem_of_map_to_list in Hin.
        rewrite Hget in Hin. now injection Hin as <-.
  - rewrite swept_lookup_fresh, Hget.
    + split; [discriminate | now intros [? _]].
    + intros c'' Hin. apply elem_of_map_to_list in Hin. congruence.
Qed.




(** X9: a model that has just been acquired is not removed by a sweep that
    reads the clock no more than the threshold later: the entry the call
    returned is still in the map after the sweep. *)
Theorem acquired_model_survives_sweep modelName type (maxAgeMs : option Z) w c w1 :
  loadModel E modelName type w = (inr c, w1) ->
  clock E (reads w1) - clock E (reads w) <= default (30 * 60 * 1000) maxAgeMs ->
  loadedModels (snd (unloadUnusedModels E maxAgeMs w1))
    !! modelPath E modelName type = Some c.
Proof.
  intros Hok Hsoon.
  apply loadModel_ok in Hok as (Hused & _ & Hmap & _).
  rewrite sweep_world. cbn [snd loadedModels].
  apply swept_lookup_iff. split.
  - rewrite Hmap. apply lookup_insert_eq.
  - rewrite Hused. exact Hsoon.
Qed.

End SweepMore.


(** A model loaded one millisecond before a sweep with the default
    threshold. *)
Lemma acquired_model_survives_sweep_witness :
  exists c w1,
    loadModel Demo.env "m" chat initial = (inr c, w1) /\
    clock Demo.env (reads w1) - clock Demo.env (reads initial) <= 30 * 60 * 1000 /\
    loadedModels (snd (unloadUnusedModels Demo.env None w1))
      !! modelPath Demo.env "m" chat = Some c.
Proof.
  destruct (loadModel Demo.env "m" chat initial) as [[e | c] w1] eqn:Hload;
    [vm_compute in Hload; discriminate |].
  assert (Hsoon : clock Demo.env (reads w1) - clock Demo.env (reads initial)
                  <= default (30 * 60 * 1000) None).
  { vm_compute in Hload. injection Hload as <- <-. vm_compute. discriminate. }
  exists c, w1. split; [reflexivity |]. split; [exact Hsoon |].
  exact (acquired_model_survives_sweep Demo.env "m" chat None initial c w1
           Hload Hsoon).
Defined.

(** ** More on unloading *)

Section UnloadMore.

Variable E : Env.

(** The three ways an unload request ends. *)
Lemma handleUnload_cases req w :
  (exists p c,
     first_cached (loadedModels w)
                  (unload_candidates E (default "" (ul_model req))) = Some p /\
     loadedModels w !! p = Some c /\
     handleUnload E req w =
       (inr (Json (MessageBody "Model unloaded successfully") 200),
        {| loadedModels := delete p (loadedModels w); reads := reads w;
           trace := trace w ++ [EvDispose (model c)] |})) \/
  handleUnload E req w =
    (inr (Json (FlatErrorBody "Model not found or not loaded") 404), w) \/
  handleUnload E req w = (inr (Json (FlatErrorBody "Model name is required") 400), w).
Proof.
  destruct (Js.truthy_field (ul_model req)) eqn:Hm.
  2:{ right. right. unfold handleUnload, try_catch. now rewrite Hm. }
  destruct (ul_model req) as [model_ |] eqn:Hreq; [| discriminate].
  simpl in Hm. cbn [default from_option id].
  replace req with {| ul_model := Some model_ |} by (destruct req; simpl in *; congruence).
  destruct (first_cached (loadedModels w) (unload_candidates E model_))
    as [p |] eqn:Hfind.
  - destruct (Js.truthy p) eqn:Hp.
    + left. destruct (handleUnload_found E model_ w p Hm Hfind Hp) as (c & Hget & Hrun).
      exists p, c. auto.
    + right. left. unfold handleUnload, try_catch.
      cbn [ul_model Js.truthy_field]. rewrite Hm.
      cbn [negb default from_option id]. unfold bind at 1.
      rewrite findModelPath_first_cached. fold (unload_candidates E model_).
      rewrite Hfind. cbn [Js.truthy_field]. rewrite Hp. reflexivity.
  - right. left. now apply handleUnload_not_found.
Qed.



Lemma loadModel_miss_loads modelName type w :
  loadedModels w !! modelPath E modelName type = None ->
  loads_of (modelPath E modelName type) (snd (loadModel E modelName type w)) =
    S (loads_of (modelPath E modelName type) w).
Proof.
  intros Hget.
  unfold loadModel, llama_loadModel, createEmbeddingContext, createRankingContext,
    bind, ret, throw, settle, cache_get, cache_set, emit, Date_now.
  simpl. rewrite Hget. unfold loads_of.
  destruct (loadModel_outcome E (modelPath E modelName type)); simpl.
  - rewrite List.filter_app, length_app. simpl. rewrite String.eqb_refl. simpl. lia.
  - destruct type; simpl.
    + destruct (createEmbeddingContext_outcome E _); simpl;
        rewrite <- ?app_assoc, List.filter_app, length_app; simpl;
        rewrite String.eqb_refl; simpl; lia.
    + destruct (createRankingContext_outcome E _); simpl;
        rewrite <- ?app_assoc, List.filter_app, length_app; simpl;
        rewrite String.eqb_refl; simpl; lia.
    + rewrite List.filter_app, length_app. simpl. rewrite String.eqb_refl.
      simpl. lia.
Qed.

(** X11: after an unload request has succeeded, the next acquisition that
    resolves to the path it removed asks the engine for a load again. *)
Theorem unload_then_acquire_reloads req w modelName type :
  fst (handleUnload E req w) =
    inr (Json (MessageBody "Model unloaded successfully") 200) ->
  first_cached (loadedModels w)
               (unload_candidates E (default "" (ul_model req)))
    = Some (modelPath E modelName type) ->
  let w1 := snd (handleUnload E req w) in
  loads_of (modelPath E modelName type) (snd (loadModel E modelName type w1)) =
    S (loads_of (modelPath E modelName type) w1).
Proof.
  intros Hok Hfind w1. apply loadModel_miss_loads. subst w1.
  destruct (handleUnload_cases req w) as [(p & c & Hfind' & _ & Hrun) | [Hrun | Hrun]];
    rewrite Hrun in *; try discriminate.
  rewrite Hfind in Hfind'. injection Hfind' as <-.
  cbn [snd loadedModels]. apply lookup_delete_eq.
Qed.

End UnloadMore.


Lemma unload_then_acquire_reloads_witness :
  let w := snd (loadModel Demo.env "m" chat initial) in
  let req := {| ul_model := Some "m" |} in
  fst (handleUnload Demo.env req w) =
    inr (Json (MessageBody "Model unloaded successfully") 200) /\
  loads_of (modelPath Demo.env "m" chat)
           (snd (loadModel Demo.env "m" chat (snd (handleUnload Demo.env req w)))) =
    S (loads_of (modelPath Demo.env "m" chat) (snd (handleUnload Demo.env req w))).
Proof.
  intros w req.
  assert (Hok : fst (handleUnload Demo.env req w) =
    inr (Json (MessageBody "Model unloaded successfully") 200))
    by (vm_compute; reflexivity).
  split; [exact Hok |].
  apply (unload_then_acquire_reloads Demo.env req w "m" chat Hok).
  vm_compute. reflexivity.
Defined.

(** ** No model in the map has been disposed of *)

Section Live.

Variable E : Env.

Lemma quiet_ret {A} (a : A) : quiet (ret a).
Proof. intros w. split; [reflexivity |]. exists []. now rewrite app_nil_r. Qed.

Lemma quiet_throw {A} (e : JsError) : quiet (@throw A e).
Proof. intros w. split; [reflexivity |]. exists []. now rewrite app_nil_r. Qed.

Lemma quiet_then {A B} (m : M A) (w : World) (next : (JsError + A) * World -> (JsError + B) * World) :
  quiet m ->
  (forall x w1,
     loadedModels (snd (next (x, w1))) = loadedModels w1 /\
     exists evs, trace (snd (next (x, w1))) = trace w1 ++ evs /\
                 forallb (fun ev => negb (is_dispose ev)) evs = true) ->
  loadedModels (snd (next (m w))) = loadedModels w /\
  exists evs, trace (snd (next (m w))) = trace w ++ evs /\
              forallb (fun ev => negb (is_dispose ev)) evs = true.
Proof.
  intros Hm Hnext. destruct (Hm w) as (Hmap & evs & Htrace & Hevs).
  destruct (m w) as [x w1]. cbn [snd] in *.
  destruct (Hnext x w1) as (Hmap' & evs' & Htrace' & Hevs').
  split; [congruence |].
  exists (evs ++ evs'). rewrite Htrace', Htrace, app_assoc. split; [reflexivity |].
  rewrite forallb_app, Hevs, Hevs'. reflexivity.
Qed.

Lemma quiet_bind {A B} (m : M A) (k : A -> M B) :
  quiet m -> (forall a, quiet (k a)) -> quiet (bind m k).
Proof.
  intros Hm Hk w. unfold bind.
  apply (quiet_then m w
           (fun r => match r with
                     | (inr a, w') => k a w'
                     | (inl e, w') => (inl e, w')
                     end) Hm).
  intros [e | a] w1; [apply (quiet_throw e w1) | apply Hk].
Qed.

Lemma quiet_try_catch {A} (body : M A) (handler : JsError -> M A) :
  quiet body -> (forall e, quiet (handler e)) -> quiet (try_catch body handler).
Proof.
  intros Hm Hk w. unfold try_catch.
  apply (quiet_then body w
           (fun r => match r with
                     | (inr a, w') => (inr a, w')
                     | (inl e, w') => handler e w'
                     end) Hm).
  intros [e | a] w1; [apply Hk | apply (quiet_ret a w1)].
Qed.

Lemma quiet_for_of {A S} (body : A -> S -> M S) :
  (forall x s, quiet (body x s)) -> forall xs s, quiet (for_of xs body s).
Proof.
  intros Hbody. induction xs as [| x rest IH]; intros s; simpl.
  - apply quiet_ret.
  - apply quiet_bind; [apply Hbody | intros s'; apply IH].
Qed.

Lemma quiet_emit ev : is_dispose ev = false -> quiet (emit ev).
Proof.
  intros Hev w. split; [reflexivity |]. exists [ev]. split; [reflexivity |].
  simpl. now rewrite Hev.
Qed.

Lemma quiet_Date_now : quiet (Date_now E).
Proof. intros w. split; [reflexivity |]. exists []. simpl. now rewrite app_nil_r. Qed.

Lemma quiet_settle {A} outcome (a : A) : quiet (settle outcome a).
Proof. destruct outcome; [apply quiet_throw | apply quiet_ret]. Qed.

Lemma quiet_createContext m : quiet (createContext E m).
Proof.
  intros w. unfold createContext.
  apply (quiet_bind (emit (EvCreateContext m)) _);
    [now apply quiet_emit | intros _; apply quiet_settle].
Qed.

Ltac quiet :=
  repeat first
    [ apply quiet_ret | apply quiet_throw | apply quiet_Date_now
    | apply quiet_settle | apply quiet_createContext
    | apply quiet_emit; reflexivity
    | apply quiet_try_catch | apply quiet_bind | apply quiet_for_of
    | match goal with
      | |- forall _, _ => intro
      | x : (_ * _)%type |- _ => destruct x
      | |- quiet (if ?b then _ else _) => destruct b
      | |- quiet (match ?x with _ => _ end) => destruct x
      end ].












End Live.


(** ** Two first calls that overlap *)

Section OverlapMore.

Variable E : Env.

Lemma resume_Called_loads modelName type w :
  loadedModels w !! modelPath E modelName type = None ->
  loadModel_outcome E (modelPath E modelName type) = None ->
  resume E (Called modelName type) w =
    (AwaitingModel (modelPath E modelName type) type
       (inr {| handle := length (trace w);
               modelPath_of := modelPath E modelName type |}),
     {| loadedModels := loadedModels w; reads := reads w;
        trace := trace w ++ [EvLoad (modelPath E modelName type)] |}).
Proof.
  intros Hget Hout. unfold resume. rewrite Hget.
  unfold llama_loadModel, bind, emit, settle, ret. simpl. now rewrite Hout.
Qed.

(** X14: two calls for the same chat model that is not in the map, each run
    up to its [await] before the other goes on, both return a model; the two
    models are different loads; the map ends up with the entry of the call
    that finished last; and the engine is never asked to dispose of the
    other model, which no entry holds any more. *)
Theorem overlapping_chat_loads_orphan_first modelName w :
  let p := modelPath E modelName chat in
  loadedModels w !! p = None ->
  loadModel_outcome E p = None ->
  let r := run E [0; 1; 0; 1]%nat [Called modelName chat; Called modelName chat] w in
  exists c1 c2,
    fst r = [Returned c1; Returned c2] /\
    handle (model c1) = length (trace w) /\
    handle (model c2) = S (length (trace w)) /\
    loadedModels (snd r) = <[p := c2]> (loadedModels w) /\
    trace (snd r) = trace w ++ [EvLoad p; EvLoad p].
Proof.
  intros p Hget Hout r. subst p.
  destruct r as [tasks w'] eqn:Hrun. subst r. simpl in Hrun.
  pose proof (resume_Called_loads modelName chat w Hget Hout) as Hfirst.
  rewrite Hfirst in Hrun. simpl in Hrun.
  pose proof (resume_Called_loads modelName chat
                {| loadedModels := loadedModels w; reads := reads w;
                   trace := trace w ++ [EvLoad (modelPath E modelName chat)] |}
                Hget Hout) as Hsecond.
  simpl in Hsecond. rewrite Hsecond in Hrun. simpl in Hrun.
  injection Hrun as <- <-.
  eexists _, _. split; [reflexivity |]. cbn [model handle fst snd loadedModels trace].
  split; [reflexivity |].
  split; [rewrite length_app; simpl; lia |].
  split; [apply insert_insert_eq | now rewrite <- app_assoc].
Qed.

End OverlapMore.

Lemma overlapping_chat_loads_orphan_first_witness :
  let p := modelPath Demo.env "m" chat in
  let r := run Demo.env [0; 1; 0; 1]%nat [Called "m" chat; Called "m" chat] initial in
  loadedModels initial !! p = None /\
  loadModel_outcome Demo.env p = None /\
  trace (snd r) = [EvLoad p; EvLoad p].
Proof.
  intros p r. split; [reflexivity |]. split; [reflexivity |].
  destruct (overlapping_chat_loads_orphan_first Demo.env "m" initial eq_refl eq_refl)
    as (c1 & c2 & _ & _ & _ & _ & Htrace).
  exact Htrace.
Defined.

(** ** The listing *)

Section Listing.

Variable E : Env.
Variable F : Fs.

Lemma map_M_cache_has (w : World) (type : ModelType) (dir : string) :
  forall files,
    map_M (fun file =>
             (loaded <- cache_has (path_join E dir file) ;;
              ret {| mi_name := basename F file ".gguf";
                     mi_type := type;
                     mi_loaded := loaded |})%js) files w =
    (inr (map (fun file =>
                 {| mi_name := basename F file ".gguf";
                    mi_type := type;
                    mi_loaded :=
                      bool_decide (is_Some (loadedModels w !! path_join E dir file)) |})
              files), w).
Proof.
  induction files as [| file rest IH]; [reflexivity |].
  cbn [map_M map]. unfold bind at 1. unfold bind at 1, cache_has at 1, ret at 1.
  cbn [fst snd]. unfold bind at 1. rewrite IH. reflexivity.
Qed.

Lemma listDirectory_listed entry w :
  listDirectory E F entry w = (inr (listed E F w entry), w).
Proof.
  unfold listDirectory, listed, try_catch. unfold bind at 1, fs_readdir at 1.
  destruct (readdir F (snd entry)) as [e | files]; [reflexivity |].
  now rewrite map_M_cache_has.
Qed.

Lemma map_M_listDirectory w : forall entries,
  map_M (listDirectory E F) entries w = (inr (map (listed E F w) entries), w).
Proof.
  induction entries as [| entry rest IH]; [reflexivity |].
  cbn [map_M map]. unfold bind at 1. rewrite listDirectory_listed.
  unfold bind at 1. rewrite IH. reflexivity.
Qed.

(** The listing never fails and changes nothing. *)
Lemma handleModels_listed w :
  handleModels E F w =
    (inr (ModelList (listed E F w (embedding, MODEL_DIRS E embedding) ++
                     listed E F w (reranker, MODEL_DIRS E reranker) ++
                     listed E F w (chat, MODEL_DIRS E chat))), w).
Proof.
  unfold handleModels, try_catch. unfold bind at 1.
  rewrite map_M_listDirectory. unfold ret. cbn [MODEL_DIRS_entries map List.concat].
  now rewrite app_nil_r.
Qed.

Lemma listed_type w type dir info :
  info ∈ listed E F w (type, dir) -> mi_type info = type.
Proof.
  unfold listed. cbn [fst snd]. destruct (readdir F dir) as [e | files].
  - intros Hin. now apply elem_of_nil in Hin.
  - intros Hin. apply list_elem_of_fmap in Hin as (file & -> & _). reflexivity.
Qed.

Lemma filter_listed w type dir (t : ModelType) :
  List.filter (fun info => bool_decide (mi_type info = t)) (listed E F w (type, dir)) =
    if decide (type = t) then listed E F w (type, dir) else [].
Proof.
  assert (H : forall l : list ModelInfo,
            (forall info, info ∈ l -> mi_type info = type) ->
            List.filter (fun info => bool_decide (mi_type info = t)) l =
              if decide (type = t) then l else []).
  { induction l as [| info l IH]; intros Hall; [now destruct (decide (type = t)) |].
    simpl. rewrite (Hall info) by (apply elem_of_cons; now left).
    rewrite IH by (intros i Hi; apply Hall, elem_of_cons; now right).
    destruct (decide (type = t)) as [Heq | Hne].
    - now rewrite bool_decide_eq_true_2.
    - now rewrite bool_decide_eq_false_2. }
  apply H. intros info. apply listed_type.
Qed.

Lemma listed_elem w type dir files file :
  readdir F dir = inr files ->
  file ∈ files ->
  Js.endsWith file ".gguf" = true ->
  {| mi_name := basename F file ".gguf"; mi_type := type;
     mi_loaded := bool_decide (is_Some (loadedModels w !! path_join E dir file)) |}
    ∈ listed E F w (type, dir).
Proof.
  intros Hdir Hin Hext. unfold listed. cbn [fst snd]. rewrite Hdir.
  apply list_elem_of_fmap. exists file. split; [reflexivity |].
  apply list_elem_of_In, filter_In. split; [now apply list_elem_of_In | exact Hext].
Qed.

Lemma listed_in_models w type info :
  info ∈ listed E F w (type, MODEL_DIRS E type) ->
  exists models, handleModels E F w = (inr (ModelList models), w) /\ info ∈ models.
Proof.
  intros Hin. eexists. split; [apply handleModels_listed |].
  destruct type; set_solver.
Qed.

(** X15: the listing always answers with a list and changes nothing, whether
    or not the directories can be read; every element of the list stands for
    a [.gguf] file of the directory of its type, is named after that file,
    and says [loaded] exactly when the map holds the path of that file. *)
Theorem listing_reports_cache_membership (w : World) :
  exists models,
    handleModels E F w = (inr (ModelList models), w) /\
    forall info,
      info ∈ models ->
      exists files file,
        readdir F (MODEL_DIRS E (mi_type info)) = inr files /\
        file ∈ files /\
        Js.endsWith file ".gguf" = true /\
        mi_name info = basename F file ".gguf" /\
        (mi_loaded info = true <->
         is_Some (loadedModels w
                    !! path_join E (MODEL_DIRS E (mi_type info)) file)).
Proof.
  eexists. split; [apply handleModels_listed |].
  assert (H : forall type info,
            info ∈ listed E F w (type, MODEL_DIRS E type) ->
            exists files file,
              readdir F (MODEL_DIRS E (mi_type info)) = inr files /\
              file ∈ files /\
              Js.endsWith file ".gguf" = true /\
              mi_name info = basename F file ".gguf" /\
              (mi_loaded info = true <->
               is_Some (loadedModels w
                          !! path_join E (MODEL_DIRS E (mi_type info)) file))).
  { intros type info Hin. rewrite (listed_type _ _ _ _ Hin).
    unfold listed in Hin. cbn [fst snd] in Hin.
    destruct (readdir F (MODEL_DIRS E type)) as [e | files] eqn:Hdir;
      [now apply elem_of_nil in Hin |].
    apply list_elem_of_fmap in Hin as (file & -> & Hin).
    apply list_elem_of_In, filter_In in Hin as [Hin Hext].
    exists files, file. cbn [mi_name mi_loaded].
    split; [reflexivity |]. split; [now apply list_elem_of_In |].
    split; [exact Hext |]. split; [reflexivity |].
    apply bool_decide_eq_true. }
  intros info Hin.
  apply elem_of_app in Hin as [Hin | Hin]; [exact (H _ _ Hin) |].
  apply elem_of_app in Hin as [Hin | Hin]; [exact (H _ _ Hin) | exact (H _ _ Hin)].
Qed.

(** X16: the elements of a type in the listing are the [.gguf] files of the
    directory of that type, in the order the directory gives them, and none
    when the directory cannot be read; a directory that cannot be read takes
    nothing away from the other two. *)
Theorem listing_by_category (w : World) (models : list ModelInfo) (t : ModelType) :
  fst (handleModels E F w) = inr (ModelList models) ->
  List.filter (fun info => bool_decide (mi_type info = t)) models =
    match readdir F (MODEL_DIRS E t) with
    | inl _ => []
    | inr files =>
        map (fun file =>
               {| mi_name := basename F file ".gguf";
                  mi_type := t;
                  mi_loaded :=
                    bool_decide (is_Some (loadedModels w
                                            !! path_join E (MODEL_DIRS E t) file)) |})
            (List.filter (fun file => Js.endsWith file ".gguf") files)
    end.
Proof.
  rewrite handleModels_listed. cbn [fst]. intros [= <-].
  rewrite !List.filter_app, !filter_listed.
  change (match readdir F (MODEL_DIRS E t) with
          | inl _ => []
          | inr files => _
          end) with (listed E F w (t, MODEL_DIRS E t)).
  destruct t; simpl; now rewrite ?app_nil_r.
Qed.

(** X17: a model that has just been acquired, and whose file is in the
    directory of its type, is in the listing served next, with [loaded]
    true. *)
Theorem loaded_model_is_listed modelName type w c w1 files :
  loadModel E modelName type w = (inr c, w1) ->
  readdir F (MODEL_DIRS E type) = inr files ->
  modelFileName modelName ∈ files ->
  exists models,
    handleModels E F w1 = (inr (ModelList models), w1) /\
    {| mi_name := basename F (modelFileName modelName) ".gguf";
       mi_type := type; mi_loaded := true |} ∈ models.
Proof.
  intros Hok Hdir Hin.
  apply loadModel_ok in Hok as (_ & _ & Hmap & _).
  apply (listed_in_models w1 type).
  pose proof (listed_elem w1 type _ files _ Hdir Hin
                (proj1 (modelFileName_extension modelName))) as Hlisted.
  rewrite bool_decide_eq_true_2 in Hlisted; [exact Hlisted |].
  fold (modelPath E modelName type). rewrite Hmap, lookup_insert_eq. eauto.
Qed.

(** X18: after an unload request has succeeded, the file of the path it
    removed, if it is in the directory, is in the listing served next with
    [loaded] false. *)
Theorem unloaded_model_is_listed req w type files :
  fst (handleUnload E req w) =
    inr (Json (MessageBody "Model unloaded successfully") 200) ->
  first_cached (loadedModels w)
               (unload_candidates E (default "" (ul_model req)))
    = Some (path_join E (MODEL_DIRS E type) (default "" (ul_model req) +:+ ".gguf")) ->
  readdir F (MODEL_DIRS E type) = inr files ->
  default "" (ul_model req) +:+ ".gguf" ∈ files ->
  let w1 := snd (handleUnload E req w) in
  exists models,
    handleModels E F w1 = (inr (ModelList models), w1) /\
    {| mi_name := basename F (default "" (ul_model req) +:+ ".gguf") ".gguf";
       mi_type := type; mi_loaded := false |} ∈ models.
Proof.
  intros Hok Hfind Hdir Hin w1.
  apply (listed_in_models w1 type).
  pose proof (listed_elem w1 type _ files _ Hdir Hin
                (endsWith_append _ ".gguf")) as Hlisted.
  rewrite bool_decide_eq_false_2 in Hlisted; [exact Hlisted |].
  subst w1.
  destruct (handleUnload_cases E req w) as [(p & c & Hfind' & _ & Hrun) | [Hrun | Hrun]];
    rewrite Hrun in *; try discriminate.
  rewrite Hfind in Hfind'. injection Hfind' as <-.
  cbn [snd loadedModels]. rewrite lookup_delete_eq. intros [x Hx]. discriminate.
Qed.

End Listing.

Lemma listing_by_category_witness :
  let w := snd (loadModel Demo.env "m" chat initial) in
  fst (handleModels Demo.env demo_fs w) =
    inr (ModelList [{| mi_name := "m"; mi_type := chat; mi_loaded := true |}]) /\
  List.filter (fun info => bool_decide (mi_type info = embedding))
              [{| mi_name := "m"; mi_type := chat; mi_loaded := true |}] = [].
Proof.
  intros w.
  assert (H : fst (handleModels Demo.env demo_fs w) =
    inr (ModelList [{| mi_name := "m"; mi_type := chat; mi_loaded := true |}]))
    by (vm_compute; reflexivity).
  split; [exact H |].
  exact (listing_by_category Demo.env demo_fs w _ embedding H).
Defined.

Lemma loaded_model_is_listed_witness :
  exists c w1 models,
    loadModel Demo.env "m" chat initial = (inr c, w1) /\
    handleModels Demo.env demo_fs w1 = (inr (ModelList models), w1) /\
    {| mi_name := "m"; mi_type := chat; mi_loaded := true |} ∈ models.
Proof.
  destruct (loadModel Demo.env "m" chat initial) as [[e | c] w1] eqn:Hload;
    [vm_compute in Hload; discriminate |].
  destruct (loaded_model_is_listed Demo.env demo_fs "m" chat initial c w1
              ["m.gguf"; "notes.txt"] Hload eq_refl)
    as (models & Hlist & Hin).
  { apply elem_of_cons. now left. }
  exists c, w1, models. split; [reflexivity |]. split; [exact Hlist | exact Hin].
Defined.

Lemma unloaded_model_is_listed_witness :
  let w := snd (loadModel Demo.env "m" chat initial) in
  let req := {| ul_model := Some "m" |} in
  let w1 := snd (handleUnload Demo.env req w) in
  fst (handleUnload Demo.env req w) =
    inr (Json (MessageBody "Model unloaded successfully") 200) /\
  exists models,
    handleModels Demo.env demo_fs w1 = (inr (ModelList models), w1) /\
    {| mi_name := "m"; mi_type := chat; mi_loaded := false |} ∈ models.
Proof.
  intros w req w1.
  assert (Hok : fst (handleUnload Demo.env req w) =
    inr (Json (MessageBody "Model unloaded successfully") 200))
    by (vm_compute; reflexivity).
  split; [exact Hok |].
  apply (unloaded_model_is_listed Demo.env demo_fs req w chat
           ["m.gguf"; "notes.txt"] Hok).
  - vm_compute. reflexivity.
  - reflexivity.
  - apply elem_of_cons. now left.
Defined.

(** ** The shape of the stream *)

Section StreamShape.

Variable E : Env.

Lemma has_break_nonempty (s : string) : has_break s = true -> s <> "".
Proof. intros H ->. discriminate. Qed.

(** While the callback runs, the buffer holds no space and no line feed, and
    what has been enqueued are chunks without a finish reason, each holding
    one. *)
Lemma onTextChunk_invariant sessionId model_ : forall tokens buffer queue w r w',
  for_of tokens (onTextChunk E sessionId model_) (buffer, queue) w = (inr r, w') ->
  has_break buffer = false ->
  Forall (fun f => exists c, f = FrameChunk c /\
                             chunk_id c = sessionId /\ chunk_model c = model_ /\
                             chunk_finish_reason c = None /\
                             has_break (delta_content c) = true) queue ->
  has_break (fst r) = false /\
  Forall (fun f => exists c, f = FrameChunk c /\
                             chunk_id c = sessionId /\ chunk_model c = model_ /\
                             chunk_finish_reason c = None /\
                             has_break (delta_content c) = true) (snd r).
Proof.
  induction tokens as [| token rest IH]; intros buffer queue w r w' Hloop Hbuffer Hqueue.
  - injection Hloop as <- <-. auto.
  - cbn [for_of] in Hloop. unfold bind at 1 in Hloop.
    unfold onTextChunk at 1 in Hloop. cbn [fst snd] in Hloop.
    fold (has_break (buffer +:+ token)) in Hloop.
    destruct (has_break (buffer +:+ token)) eqn:Hbreak.
    + unfold bind at 1, Date_now at 1, ret at 1 in Hloop. cbn [fst snd] in Hloop.
      apply IH in Hloop; [exact Hloop | reflexivity |].
      apply Forall_app. split; [exact Hqueue |].
      constructor; [| constructor]. eexists. split; [reflexivity |].
      cbn [chunk_id chunk_model chunk_finish_reason delta_content]. auto.
    + unfold ret at 1 in Hloop.
      apply IH in Hloop; [exact Hloop | exact Hbreak | exact Hqueue].
Qed.

(** The frames of a stream that closes. *)
Lemma stream_start_shape session sessionId model_ text options w frames w' :
  stream_start E session sessionId model_ text options w =
    (inr (EventStream frames Closed), w') ->
  exists chunks,
    frames = map FrameChunk chunks ++ [FrameDone] /\
    forall i c,
      chunks !! i = Some c ->
      chunk_id c = sessionId /\ chunk_model c = model_ /\
      delta_content c <> "" /\
      ((chunk_finish_reason c = None /\ has_break (delta_content c) = true) \/
       (chunk_finish_reason c = Some "stop" /\
        has_break (delta_content c) = false /\ S i = length chunks)).
Proof.
  unfold stream_start, session_prompt.
  set (produced := generate E _ _ _ text options).
  unfold bind at 1. unfold bind at 1, emit at 1. cbn [fst snd].
  unfold bind at 1.
  match goal with
  | |- context [for_of (fst produced) _ (?b, ?q) ?w1] =>
      destruct (for_of_onTextChunk E sessionId model_ (fst produced) b q w1)
        as (buffer & queue & n & Hloop & _ & _);
      pose proof (onTextChunk_invariant sessionId model_ _ _ _ _ _ _ Hloop
                    eq_refl (List.Forall_nil _)) as [Hbuffer Hqueue]
  end.
  rewrite Hloop. cbn [fst snd] in *.
  destruct (snd produced) as [e |]; [unfold ret; cbn [fst snd]; discriminate |].
  unfold ret at 1. cbn [fst snd].
  assert (Hchunks : exists flushed,
            queue = map FrameChunk flushed /\
            forall c, c ∈ flushed ->
                      chunk_id c = sessionId /\ chunk_model c = model_ /\
                      chunk_finish_reason c = None /\
                      has_break (delta_content c) = true).
  { clear -Hqueue. induction queue as [| f queue IH].
    - exists []. split; [reflexivity |]. intros c Hc. now apply elem_of_nil in Hc.
    - apply Forall_cons in Hqueue as [(c & -> & Hc) Hqueue].
      destruct (IH Hqueue) as (flushed & -> & Hall).
      exists (c :: flushed). split; [reflexivity |].
      intros c' Hc'. apply elem_of_cons in Hc' as [-> | Hc']; auto. }
  destruct Hchunks as (flushed & -> & Hflushed).
  destruct (Js.truthy buffer) eqn:Htruthy.
  - unfold bind at 1. unfold bind at 1, Date_now at 1, ret. cbn [fst snd].
    intros [= <- _].
    match goal with
    | |- context [FrameChunk ?c] => exists (flushed ++ [c])
    end.
    split; [now rewrite map_app |].
    intros i c Hi. apply lookup_app_Some in Hi as [Hi | [Hlen Hi]].
    + destruct (Hflushed c (list_elem_of_lookup_2 _ _ _ Hi)) as (? & ? & ? & Hb).
      repeat split; auto. now apply has_break_nonempty.
    + apply list_lookup_singleton_Some in Hi as [Hi <-].
      cbn [chunk_id chunk_model chunk_finish_reason delta_content].
      repeat split; auto.
      * intros ->. discriminate.
      * right. repeat split; auto. rewrite length_app. simpl. lia.
  - unfold bind at 1, ret. cbn [fst snd]. intros [= <- _].
    exists flushed. split; [reflexivity |].
    intros i c Hi.
    destruct (Hflushed c (list_elem_of_lookup_2 _ _ _ Hi)) as (? & ? & ? & Hb).
    repeat split; auto. now apply has_break_nonempty.
Qed.

(** X19: a chat stream that closes is a sequence of chunks followed by the
    [DONE] frame.  All chunks carry the same id and the model of the
    request; none is empty; every chunk holds a space or a line feed and has
    no finish reason, except that the last may be the rest of the text,
    without a space or a line feed, with the finish reason [stop]. *)
Theorem stream_chunks_shape req w frames :
  fst (handleChatCompletion E (with_stream req true) w) =
    inr (EventStream frames Closed) ->
  exists sessionId chunks,
    frames = map FrameChunk chunks ++ [FrameDone] /\
    forall i c,
      chunks !! i = Some c ->
      chunk_id c = sessionId /\
      chunk_model c = default "" (chat_model req) /\
      delta_content c <> "" /\
      ((chunk_finish_reason c = None /\ has_break (delta_content c) = true) \/
       (chunk_finish_reason c = Some "stop" /\
        has_break (delta_content c) = false /\ S i = length chunks)).
Proof.
  intros Hstreamed.
  destruct (Js.truthy_field (chat_model req)
            && negb (no_messages (chat_messages req))) eqn:Hvalid.
  2:{ destruct (chat_invalid E (with_stream req true) w Hvalid) as [param Hbad].
      rewrite Hbad in Hstreamed. discriminate. }
  apply andb_true_iff in Hvalid as [Hm Hmsgs]. apply negb_true_iff in Hmsgs.
  rewrite (chat_unfold E (with_stream req true) w Hm Hmsgs) in Hstreamed.
  cbn [with_stream chat_model chat_messages chat_stream default from_option]
    in Hstreamed.
  destruct (loadModel E _ chat w) as [[e | mc] w1].
  { unfold openai_catch in Hstreamed. destruct (is_ENOENT e); discriminate. }
  destruct (createContext E (model mc) _) as [[e | sequence] w3].
  { unfold openai_catch in Hstreamed. destruct (is_ENOENT e); discriminate. }
  unfold id, try_catch in Hstreamed.
  match type of Hstreamed with
  | context [stream_start E ?session ?sid ?m ?text ?options w3] =>
      destruct (stream_start E session sid m text options w3)
        as [[e | resp] w4] eqn:Hstream; cbn [fst snd] in Hstreamed;
      [unfold openai_catch in Hstreamed; destruct (is_ENOENT e); discriminate |];
      injection Hstreamed as ->;
      exists sid; exact (stream_start_shape _ _ _ _ _ _ _ _ Hstream)
  end.
Qed.

(** The frames of a stream that is errored. *)
Lemma stream_start_errored session sessionId model_ text options w queue e w' :
  stream_start E session sessionId model_ text options w =
    (inr (EventStream queue (Errored e)), w') ->
  snd (generate E (modelPath_of (session_model session))
                (session_systemPrompt session) (session_history session)
                text options) = Some e /\
  (FrameDone ∉ queue) /\
  forall c, FrameChunk c ∈ queue -> chunk_finish_reason c = None.
Proof.
  unfold stream_start, session_prompt.
  set (produced := generate E _ _ _ text options).
  unfold bind at 1. unfold bind at 1, emit at 1. cbn [fst snd].
  unfold bind at 1.
  match goal with
  | |- context [for_of (fst produced) _ (?b, ?q) ?w1] =>
      destruct (for_of_onTextChunk E sessionId model_ (fst produced) b q w1)
        as (buffer & queue' & n & Hloop & _ & Hdone);
      pose proof (onTextChunk_invariant sessionId model_ _ _ _ _ _ _ Hloop
                    eq_refl (List.Forall_nil _)) as [_ Hqueue]
  end.
  rewrite Hloop. cbn [fst snd] in *.
  destruct (snd produced) as [e' |].
  - unfold ret. cbn [fst snd]. intros [= <- <- _].
    split; [reflexivity |]. split; [apply Hdone, not_elem_of_nil |].
    intros c Hc. rewrite Forall_forall in Hqueue.
    destruct (Hqueue _ Hc) as (c' & [= <-] & _ & _ & Hnone & _). exact Hnone.
  - unfold ret at 1. cbn [fst snd].
    destruct (Js.truthy buffer);
      unfold bind, Date_now, ret; cbn [fst snd]; discriminate.
Qed.

(** X20: when the engine fails during the generation of a streamed chat
    request, the response is still an event stream: it is errored, it has no
    [DONE] frame, and none of the chunks sent before the failure has a
    finish reason.  The same request without [stream] is answered with the
    error response for the value thrown. *)
Theorem failed_stream_has_no_done req w queue e :
  fst (handleChatCompletion E (with_stream req true) w) =
    inr (EventStream queue (Errored e)) ->
  (FrameDone ∉ queue) /\
  (forall c, FrameChunk c ∈ queue -> chunk_finish_reason c = None) /\
  fst (handleChatCompletion E (with_stream req false) w) = fst (openai_catch e w).
Proof.
  intros Hstreamed.
  destruct (Js.truthy_field (chat_model req)
            && negb (no_messages (chat_messages req))) eqn:Hvalid.
  2:{ destruct (chat_invalid E (with_stream req true) w Hvalid) as [param Hbad].
      rewrite Hbad in Hstreamed. discriminate. }
  apply andb_true_iff in Hvalid as [Hm Hmsgs]. apply negb_true_iff in Hmsgs.
  rewrite (chat_unfold E (with_stream req true) w Hm Hmsgs) in Hstreamed.
  rewrite (chat_unfold E (with_stream req false) w Hm Hmsgs).
  cbn [with_stream chat_model chat_messages chat_stream default from_option]
    in *.
  destruct (loadModel E _ chat w) as [[e' | mc] w1].
  { unfold openai_catch in Hstreamed. destruct (is_ENOENT e'); discriminate. }
  destruct (createContext E (model mc) _) as [[e' | sequence] w3].
  { unfold openai_catch in Hstreamed. destruct (is_ENOENT e'); discriminate. }
  change (session_for (with_stream req true) mc sequence)
    with (session_for (with_stream req false) mc sequence) in Hstreamed.
  change (options_of (with_stream req true))
    with (options_of (with_stream req false)) in Hstreamed.
  unfold id, try_catch in *.
  match type of Hstreamed with
  | context [stream_start E ?session ?sid ?m ?text ?options w3] =>
      destruct (stream_start E session sid m text options w3)
        as [[e' | resp] w4] eqn:Hstream; cbn [fst snd] in Hstreamed;
      [unfold openai_catch in Hstreamed; destruct (is_ENOENT e'); discriminate |];
      injection Hstreamed as ->;
      destruct (stream_start_errored _ _ _ _ _ _ _ _ _ Hstream)
        as (Hfail & Hdone & Hnone)
  end.
  split; [exact Hdone |]. split; [exact Hnone |].
  unfold bind at 1. rewrite session_prompt_no_callback. cbn [fst snd].
  rewrite Hfail. unfold throw, openai_catch.
  destruct (is_ENOENT e); reflexivity.
Qed.

End StreamShape.

Lemma stream_chunks_shape_witness :
  let req := {| chat_model := Some "m";
                chat_messages := Some [{| role := "user"; content := "hi" |}];
                chat_temperature := None; chat_max_tokens := None;
                chat_stream := None |} in
  exists frames sessionId chunks,
    fst (handleChatCompletion Demo.env (with_stream req true) initial) =
      inr (EventStream frames Closed) /\
    frames = map FrameChunk chunks ++ [FrameDone] /\
    forall i c, chunks !! i = Some c -> chunk_id c = sessionId.
Proof.
  intros req.
  destruct (fst (handleChatCompletion Demo.env (with_stream req true) initial))
    as [e | [body status | frames [| e]]] eqn:Hstreamed;
    try (vm_compute in Hstreamed; discriminate).
  destruct (stream_chunks_shape Demo.env req initial frames Hstreamed)
    as (sessionId & chunks & Hframes & Hshape).
  exists frames, sessionId, chunks. split; [reflexivity |].
  split; [exact Hframes |].
  intros i c Hi. exact (proj1 (Hshape i c Hi)).
Defined.

(** The engine fails after the chunks [Hel], [lo ], [wor]. *)
Lemma failed_stream_has_no_done_witness :
  let req := {| chat_model := Some "m";
                chat_messages := Some [{| role := "user"; content := "hi" |}];
                chat_temperature := None; chat_max_tokens := None;
                chat_stream := None |} in
  exists queue e body,
    fst (handleChatCompletion demo_failing (with_stream req true) initial) =
      inr (EventStream queue (Errored e)) /\
    queue <> [] /\
    (FrameDone ∉ queue) /\
    fst (handleChatCompletion demo_failing (with_stream req false) initial) =
      inr (Json body 500).
Proof.
  intros req.
  destruct (fst (handleChatCompletion demo_failing (with_stream req true) initial))
    as [e | [body status | frames [| e]]] eqn:Hstreamed;
    try (vm_compute in Hstreamed; discriminate).
  destruct (failed_stream_has_no_done demo_failing req initial frames e Hstreamed)
    as (Hdone & _ & Hplain).
  exists frames, e. eexists. split; [reflexivity |].
  split; [vm_compute in Hstreamed; injection Hstreamed as <- _; discriminate |].
  split; [exact Hdone |].
  rewrite Hplain. vm_compute in Hstreamed. injection Hstreamed as _ <-.
  reflexivity.
Defined.
